(** * TSN: transaction sequence numbers from a named wall clock

    A shallow embedding of [tsn.go] (package [tsn]) and the properties of
    its clock registry, its TSN issuer and its panic/recover boundary.

    Layout:
    - [Strings]: the fragment of Go's [strings] package used by [dbname];
    - [Sync]: [sync.RWMutex] as far as [get] and [add] use it;
    - the process state, the outside world and the monad in which the Go
      functions are written;
    - the functions of [tsn.go], under their own names;
    - [Sched]: goroutines interleaved at the granularity of the mutex;
    - sequences of calls, the notions the statements use, example worlds;
    - the proofs. *)

From Stdlib Require Import ZArith String Ascii Lia.
From stdpp Require Import base option gmap strings list.

Local Open Scope string_scope.

(** ** Go strings

    A Go string is a sequence of bytes; [string] with its 8-bit [ascii]
    characters is exactly that.  [s +:+ t] is concatenation. *)

Module Strings.

(** [strings.HasPrefix(s, prefix)]. *)
Fixpoint HasPrefix (s prefix : string) {struct prefix} : bool :=
  match prefix, s with
  | EmptyString, _ => true
  | String _ _, EmptyString => false
  | String a prefix', String b s' =>
      if decide (a = b) then HasPrefix s' prefix' else false
  end.

(** [strings.Index(s, substr)]: the index of the first instance of
    [substr] in [s]; Go's [-1] is [None]. *)
Fixpoint Index (s substr : string) : option nat :=
  if HasPrefix s substr then Some 0
  else match s with
       | EmptyString => None
       | String _ s' => S <$> Index s' substr
       end.

(** The slices [s[:j]] and [s[j:]] (for [j] within the string). *)
Fixpoint slice_to (j : nat) (s : string) : string :=
  match j, s with
  | S j', String a s' => String a (slice_to j' s')
  | _, _ => EmptyString
  end.

Fixpoint slice_from (j : nat) (s : string) : string :=
  match j, s with
  | S j', String _ s' => slice_from j' s'
  | _, _ => s
  end.

(** [strings.Replace(s, old, new, 1)].

    The library returns [s] at once when [old == new], and again when
    [Count(s, old)] is 0, which is when [old] does not occur.  Otherwise
    its loop runs [n = 1] times: with [start = 0] it takes
    [j = Index(s, old)], writes [s[:j]] and [new], and after the loop
    writes [s[j+len(old):]].  (For an empty [old] the first round has
    [j = 0], which is [Index s ""] as well.) *)
Definition Replace1 (s old new : string) : string :=
  if decide (old = new) then s
  else match Index s old with
       | None => s
       | Some j =>
           slice_to j s +:+ new +:+ slice_from (j + String.length old) s
       end.

End Strings.

(** ** Values of the program *)

(** An [error] value that is not nil, identified by its message. *)
Definition error : Type := string.

(** [errors.New(text)]. *)
Definition errors_New (text : string) : error := text.

(** [sql.ErrNoRows], what [Row.Scan] returns when the query gave no row. *)
Definition sql_ErrNoRows : error := errors_New "sql: no rows in result set".

(** A non-nil [*WallClock] is the address [new] gave the struct; a non-nil
    [*sql.DB] is the serial number of the [sql.Open] call that made it.
    A pointer that may be nil is an [option]. *)
Definition loc : Type := nat.
Definition conn : Type := nat.

Module WallClock.
Record t : Type := mk { db : option conn; name : string; dbname : string }.

(** The zero value that [new(WallClock)] allocates. *)
Definition zero : t := {| db := None; name := ""; dbname := "" |}.

Definition set_db (v : option conn) (w : t) : t :=
  {| db := v; name := name w; dbname := dbname w |}.
Definition set_name (v : string) (w : t) : t :=
  {| db := db w; name := v; dbname := dbname w |}.
Definition set_dbname (v : string) (w : t) : t :=
  {| db := db w; name := name w; dbname := v |}.
End WallClock.

(** What the two [fmt.Printf] calls of the package write, one line each:
    [CHECK: name value] from [checkString] and [ERROR: err] from
    [checkErr]. *)
Inductive line : Type :=
  | CHECK (name value : string)
  | ERROR (err : error).

(** ** sync.RWMutex

    The state of a reader/writer mutex: how many readers hold it and
    whether a writer does. *)
Module Sync.
Record RWMutex : Type := mk { readers : nat; writer : bool }.

Definition unlocked : RWMutex := {| readers := 0; writer := false |}.
End Sync.

(** ** The outside world

    The package calls out of the process four times: [os.Getenv],
    [sql.Open], [DB.Ping] and [DB.QueryRow].  What they answer is not the
    package's to decide and may differ from one call to the next, so each
    answer is a function of the moment of the call: the number of calls
    made so far ([now] in the state below). *)

(** The answer to [db.QueryRow(q)] followed by [row.Scan(&tsn)] with
    [tsn] an [int64]. *)
Inductive Row : Type :=
  | RowQueryError (e : error)   (* the query failed; the row carries the error *)
  | RowNone                     (* the query returned no row *)
  | RowUndecodable (e : error)  (* the row does not scan into one int64 *)
  | RowInt64 (v : Z).           (* one row, one column, an int64 *)

Record World : Type := {
  Getenv : nat → string → string;
  Open : nat → string → string → option error;
  Ping : nat → conn → option error;
  QueryRow : nat → conn → string → Row;
}.

(** ** The state of the process *)

Record State : Type := mkState {
  (** [var wallclocks = map[string]*WallClock{}]; only [add] stores into
      it, and it stores what [new] returned, so no value is nil. *)
  wallclocks : gmap string loc;
  (** [var wallclocksRWLock sync.RWMutex] *)
  wallclocksRWLock : Sync.RWMutex;
  (** [var dbTemplate string = ""] *)
  dbTemplate : string;
  (** the [WallClock] structs allocated so far, by address *)
  heap : list WallClock.t;
  (** how many [*sql.DB] objects [sql.Open] has returned *)
  dbs : nat;
  (** how many calls to the outside world have been made *)
  now : nat;
  (** standard output *)
  stdout : list line;
}.

Definition init : State :=
  {| wallclocks := ∅; wallclocksRWLock := Sync.unlocked; dbTemplate := "";
     heap := []; dbs := 0; now := 0; stdout := [] |}.

Definition set_wallclocks (f : gmap string loc → gmap string loc) (s : State) : State :=
  mkState (f (wallclocks s)) (wallclocksRWLock s) (dbTemplate s) (heap s)
          (dbs s) (now s) (stdout s).
Definition set_wallclocksRWLock (f : Sync.RWMutex → Sync.RWMutex) (s : State) : State :=
  mkState (wallclocks s) (f (wallclocksRWLock s)) (dbTemplate s) (heap s)
          (dbs s) (now s) (stdout s).
Definition set_dbTemplate (v : string) (s : State) : State :=
  mkState (wallclocks s) (wallclocksRWLock s) v (heap s)
          (dbs s) (now s) (stdout s).
Definition set_heap (f : list WallClock.t → list WallClock.t) (s : State) : State :=
  mkState (wallclocks s) (wallclocksRWLock s) (dbTemplate s) (f (heap s))
          (dbs s) (now s) (stdout s).
Definition set_dbs (v : nat) (s : State) : State :=
  mkState (wallclocks s) (wallclocksRWLock s) (dbTemplate s) (heap s)
          v (now s) (stdout s).
Definition tick (s : State) : State :=
  mkState (wallclocks s) (wallclocksRWLock s) (dbTemplate s) (heap s)
          (dbs s) (S (now s)) (stdout s).
Definition print (l : line) (s : State) : State :=
  mkState (wallclocks s) (wallclocksRWLock s) (dbTemplate s) (heap s)
          (dbs s) (now s) (stdout s ++ [l])%list.

(** ** The monad of Go function bodies

    A call either returns, or panics (and unwinds to the nearest deferred
    [recover]), or parks its goroutine on the mutex for good, or dies of a
    runtime throw that no [recover] catches.  The state it leaves behind
    is there in every case: a panic undoes nothing. *)

Inductive panic_value : Type :=
  | PanicError (e : error)        (* [panic(err)] in [checkErr] *)
  | PanicNilDereference.          (* runtime error: nil pointer dereference *)

Inductive outcome (A : Type) : Type :=
  | Ret (a : A)
  | Panic (v : panic_value)
  | Blocked
  | Fatal (msg : string).
Arguments Ret {A} a.
Arguments Panic {A} v.
Arguments Blocked {A}.
Arguments Fatal {A} msg.

Definition M (A : Type) : Type := State → outcome A * State.

Definition ret {A} (a : A) : M A := λ s, (Ret a, s).

Definition bind {A B} (m : M A) (k : A → M B) : M B :=
  λ s, match m s with
       | (Ret a, s') => k a s'
       | (Panic v, s') => (Panic v, s')
       | (Blocked, s') => (Blocked, s')
       | (Fatal msg, s') => (Fatal msg, s')
       end.

Definition panic {A} (v : panic_value) : M A := λ s, (Panic v, s).
Definition gets {A} (f : State → A) : M A := λ s, (Ret (f s), s).
Definition modify (f : State → State) : M unit := λ s, (Ret tt, f s).

Notation "'do' x <- m ; k" := (bind m (λ x, k))
  (at level 10, x name, m at level 100, k at level 200, only parsing).
Notation "'do' ' p <- m ; k" := (bind m (λ x, match x with p => k end))
  (at level 10, p pattern, m at level 100, k at level 200, only parsing).
Notation "m ;; k" := (bind m (λ _, k))
  (at level 100, k at level 200, right associativity, only parsing).

(** A function with named results [r] and the deferred closure
    [[
      defer func() { if r := recover(); r != nil { ... } }()
    ]]
    When [body] returns, [recover()] is nil and the results stand.  When
    [body] panics with [v] (never nil here), the closure runs [handler v]
    on the named results, and the function returns them.  In both
    functions below the one statement that can panic is the one that
    would assign the results, so at the time of the panic they still hold
    their [zero] values.  Nothing recovers a blocked or dead goroutine. *)
Definition recovering {R} (zero : R) (body : M R) (handler : panic_value → R → R) : M R :=
  λ s, match body s with
       | (Panic v, s') => (Ret (handler v zero), s')
       | other => other
       end.

(** *** The mutex operations

    [RLock] waits while a writer holds the mutex; [Lock] waits while
    anybody does.  Unlocking a mutex that is not locked is a runtime
    throw. *)
Module RWMutex.
Import Sync.

Definition RLock : M unit := λ s,
  let m := wallclocksRWLock s in
  if writer m then (Blocked, s)
  else (Ret tt, set_wallclocksRWLock (λ m, mk (S (readers m)) (writer m)) s).

Definition RUnlock : M unit := λ s,
  match readers (wallclocksRWLock s) with
  | 0 => (Fatal "sync: RUnlock of unlocked RWMutex", s)
  | S n => (Ret tt, set_wallclocksRWLock (λ m, mk n (writer m)) s)
  end.

Definition Lock : M unit := λ s,
  let m := wallclocksRWLock s in
  if writer m then (Blocked, s)
  else match readers m with
       | 0 => (Ret tt, set_wallclocksRWLock (λ m, mk (readers m) true) s)
       | S _ => (Blocked, s)
       end.

Definition Unlock : M unit := λ s,
  if writer (wallclocksRWLock s)
  then (Ret tt, set_wallclocksRWLock (λ m, mk (readers m) false) s)
  else (Fatal "sync: Unlock of unlocked RWMutex", s).
End RWMutex.

(** ** The package

    Every function of [tsn.go], in the order of the file (with [add]
    moved before [get], which calls it). *)

Section Package.

Variable W : World.

(** *** Calls out of the process *)

(** [os.Getenv(key)] *)
Definition os_Getenv (key : string) : M string := λ s,
  (Ret (Getenv W (now s) key), tick s).

(** [sql.Open(driverName, dataSourceName)]: a fresh [*sql.DB] and a nil
    error, or a nil [*sql.DB] and the error. *)
Definition sql_Open (driverName dataSourceName : string)
  : M (option conn * option error) := λ s,
  match Open W (now s) driverName dataSourceName with
  | Some e => (Ret (None, Some e), tick s)
  | None => (Ret (Some (dbs s), None), tick (set_dbs (S (dbs s)) s))
  end.

(** [db.Ping()]; every method of a nil [*sql.DB] dereferences it. *)
Definition DB_Ping (db : option conn) : M (option error) := λ s,
  match db with
  | None => (Panic PanicNilDereference, s)
  | Some c => (Ret (Ping W (now s) c), tick s)
  end.

(** [db.QueryRow(query)] *)
Definition DB_QueryRow (db : option conn) (query : string) : M Row := λ s,
  match db with
  | None => (Panic PanicNilDereference, s)
  | Some c => (Ret (QueryRow W (now s) c query), tick s)
  end.

(** [row.Scan(&dest)] for [dest] an [int64]: the new value of [dest]
    and the error. *)
Definition Row_Scan (row : Row) (dest : Z) : Z * option error :=
  match row with
  | RowQueryError e => (dest, Some e)
  | RowNone => (dest, Some sql_ErrNoRows)
  | RowUndecodable e => (dest, Some e)
  | RowInt64 v => (v, None)
  end.

(** *** Pointers to [WallClock] *)

(** [new(WallClock)] *)
Definition new_WallClock : M loc := λ s,
  (Ret (length (heap s)), set_heap (λ h, h ++ [WallClock.zero])%list s).

(** [wc.f = v], for [wc] not nil *)
Definition store (wc : loc) (f : WallClock.t → WallClock.t) : M unit :=
  modify (set_heap (alter f wc)).

(** [wc.db], for any [wc]: reading through nil panics.  (An address
    that was never allocated is not a value a Go program can hold; it
    is treated like nil.) *)
Definition load_db (wc : option loc) : M (option conn) := λ s,
  match wc ≫= (λ l, heap s !! l) with
  | Some w => (Ret (WallClock.db w), s)
  | None => (Panic PanicNilDereference, s)
  end.

(** *** tsn.go *)

(** helper function for tracing *)
Definition checkString (name value : string) : M unit :=
  modify (print (CHECK name value)).

(** get the database connection string template *)
Definition getDbTemplate : M string :=
  do t <- gets dbTemplate;
  (if decide (t = "")
   then do v <- os_Getenv "WALLCLOCK_DB"; modify (set_dbTemplate v)
   else ret tt);;
  gets dbTemplate.

(** translate clock name into db connection string *)
Definition dbname (name : string) : M string :=
  do t <- getDbTemplate;
  let dn := Strings.Replace1 t "$database$" name in
  checkString "generated database name" dn;;
  ret dn.

(** helper function for error handling (go panic!) *)
Definition checkErr (trace : string) (err : option error) : M unit :=
  match err with
  | Some e => modify (print (ERROR e));; panic (PanicError e)
  | None => ret tt
  end.

(** helper function for tracing a SQL return row *)
Definition checkRow (row : Row) : M unit := ret tt.

(** Initial test for live database connection *)
Definition ping (db : option conn) : M unit :=
  do err <- DB_Ping db;
  checkErr "ping" err.

(** Retrieve a new TSN from database as int64 *)
Definition newTSN (db : option conn) : M Z :=
  do row <- DB_QueryRow db "select clock.new_tsn()";
  checkRow row;;
  let '(tsn, err) := Row_Scan row 0 in
  checkErr "newTSN" err;;
  ret tsn.

(** Add a new database connection.  The three stretches between the
    points where other goroutines can interfere are named, for [Sched]
    below. *)
Definition add_open (name : string) : M (loc * option conn) :=
  do wc <- new_WallClock;
  store wc (WallClock.set_name name);;
  do dn <- dbname name;
  store wc (WallClock.set_dbname dn);;
  do '(db, err) <- sql_Open "postgres" dn;
  checkErr "add" err;;
  store wc (WallClock.set_db db);;
  ret (wc, db).

Definition add_store (name : string) (wc : loc) : M unit :=
  modify (set_wallclocks <[name := wc]>).

Definition add (name : string) : M (option loc) :=
  do '(wc, db) <- add_open name;
  RWMutex.Lock;;
  add_store name wc;;
  RWMutex.Unlock;;
  ping db;;
  ret (Some wc).

(** get a Wallclock object for a given name *)
Definition get_lookup (name : string) : M (option loc) :=
  gets (λ s, wallclocks s !! name).

Definition get_found (name : string) (wc : loc) : M (option loc) :=
  checkString "get wallclock ok" name;;
  ret (Some wc).

Definition get (name : string) : M (option loc) :=
  RWMutex.RLock;;
  do r <- get_lookup name;
  RWMutex.RUnlock;;
  match r with
  | Some wc => get_found name wc
  | None => add name
  end.

(** Get the wallclock for a given name (package export).  The deferred
    closure is [GetWallClock_recover]. *)
Definition GetWallClock_recover (r : panic_value)
  : option loc * option error → option loc * option error :=
  λ '(wc, err), (wc, Some (errors_New "cannot create wall clock")).

Definition GetWallClock (name : string) : M (option loc * option error) :=
  recovering (None, None)
    (do wc <- get name; ret (wc, None))
    GetWallClock_recover.

(** From a given wallclock object retrieve the next TSN (package
    export).  The deferred closure is [NewTSN_recover]. *)
Definition NewTSN_recover (r : panic_value)
  : Z * option error → Z * option error :=
  λ '(tsn, err), (tsn, Some (errors_New "error while reading TSN")).

Definition NewTSN (wc : option loc) : M (Z * option error) :=
  recovering (0%Z, None)
    (do db <- load_db wc; do tsn <- newTSN db; ret (tsn, None))
    NewTSN_recover.

End Package.

(** ** Goroutines

    Several goroutines inside [GetWallClock] at once.  Each holds a
    position in the code of [get] and [add] together with its local
    variables, and one step of one goroutine runs the code from its
    position to the next place where it locks, unlocks, reads or writes
    the map, or returns.  The steps are built from the same pieces as
    [get] and [add] above.  A goroutine that would wait for the mutex
    makes no step; a panic unwinds to the deferred closure of
    [GetWallClock], which makes it return. *)

Module Sched.

Inductive pc : Type :=
  | AtRLock (name : string)                       (* entering [get] *)
  | AtLookup (name : string)                      (* holds the read lock *)
  | AtRUnlock (name : string) (r : option loc)    (* has read the map *)
  | AtFound (name : string) (wc : loc)            (* [if ok] taken *)
  | AtAdd (name : string)                         (* entering [add] *)
  | AtLock (name : string) (wc : loc) (db : option conn)
  | AtStore (name : string) (wc : loc) (db : option conn)
  | AtUnlock (name : string) (wc : loc) (db : option conn)
  | AtPing (wc : loc) (db : option conn)
  | Done (wc : option loc) (err : option error)   (* [GetWallClock] returned *)
  | Dead (msg : string).                          (* runtime throw *)

Section Step.

Variable W : World.

Definition action (p : pc) : M pc :=
  match p with
  | AtRLock name => RWMutex.RLock;; ret (AtLookup name)
  | AtLookup name => do r <- get_lookup name; ret (AtRUnlock name r)
  | AtRUnlock name r =>
      RWMutex.RUnlock;;
      ret (match r with Some wc => AtFound name wc | None => AtAdd name end)
  | AtFound name wc => do r <- get_found name wc; ret (Done r None)
  | AtAdd name => do '(wc, db) <- add_open W name; ret (AtLock name wc db)
  | AtLock name wc db => RWMutex.Lock;; ret (AtStore name wc db)
  | AtStore name wc db => add_store name wc;; ret (AtUnlock name wc db)
  | AtUnlock name wc db => RWMutex.Unlock;; ret (AtPing wc db)
  | AtPing wc db => ping W db;; ret (Done (Some wc) None)
  | Done wc err => ret (Done wc err)
  | Dead msg => ret (Dead msg)
  end.

Definition step (p : pc) (s : State) : pc * State :=
  match action p s with
  | (Ret p', s') => (p', s')
  | (Panic v, s') =>
      let '(wc, err) := GetWallClock_recover v (None, None) in
      (Done wc err, s')
  | (Blocked, s') => (p, s')
  | (Fatal msg, s') => (Dead msg, s')
  end.

(** A configuration is the goroutines and the shared state; a
    schedule names the goroutine that moves next, move after move. *)
Definition config : Type := list pc * State.

Definition move (c : config) (i : nat) : config :=
  match c.1 !! i with
  | Some p => let '(p', s') := step p c.2 in (<[i := p']> c.1, s')
  | None => c
  end.

Definition run (schedule : list nat) (c : config) : config :=
  foldl move c schedule.

(** One goroutine on its own, for [n] steps. *)
Fixpoint solo (n : nat) (p : pc) (s : State) : pc * State :=
  match n with
  | 0 => (p, s)
  | S n' => let '(p', s') := step p s in solo n' p' s'
  end.

End Step.

End Sched.

(** ** Sequences of calls

    What a client of the package, or the package itself, can run: the
    two exported functions and the internal ones that touch the state. *)

Inductive call : Type :=
  | CallGetWallClock (name : string)
  | CallNewTSN (wc : option loc)
  | CallGet (name : string)
  | CallAdd (name : string)
  | CallDbname (name : string)
  | CallGetDbTemplate
  | CallPing (db : option conn)
  | CallNewTSN_internal (db : option conn).

Definition exec (W : World) (c : call) (s : State) : State :=
  match c with
  | CallGetWallClock name => (GetWallClock W name s).2
  | CallNewTSN wc => (NewTSN W wc s).2
  | CallGet name => (get W name s).2
  | CallAdd name => (add W name s).2
  | CallDbname name => (dbname W name s).2
  | CallGetDbTemplate => (getDbTemplate W s).2
  | CallPing db => (ping W db s).2
  | CallNewTSN_internal db => (newTSN W db s).2
  end.

Definition execs (W : World) (cs : list call) (s : State) : State :=
  foldl (λ s c, exec W c s) s cs.

(** ** Notions used in the statements *)

(** [occurs_at j p s]: [p] is the substring of [s] that starts at byte [j]. *)
Definition occurs_at (j : nat) (p s : string) : Prop :=
  ∃ pre post, s = pre +:+ p +:+ post ∧ String.length pre = j.

(** A relation between the state before and the state after is kept by
    a computation when it holds whatever state the computation starts
    in, and however it ends. *)
Definition keeps (R : relation State) {A} (m : M A) : Prop :=
  ∀ s, R s (m s).2.

(** The names in the map stay. *)
Definition grows (s s' : State) : Prop :=
  dom (wallclocks s) ⊆ dom (wallclocks s').

(** A template that has been read stays. *)
Definition template_kept (s s' : State) : Prop :=
  dbTemplate s ≠ "" → dbTemplate s' = dbTemplate s.

(** The mutex is as it was. *)
Definition mutex_kept (s s' : State) : Prop :=
  wallclocksRWLock s' = wallclocksRWLock s.

(** A handle is invalid when it is nil or points to a [WallClock] whose
    [db] is nil (the zero value [WallClock{}] is one). *)
Definition invalid_handle (s : State) (wc : option loc) : Prop :=
  match wc with
  | None => True
  | Some l => ∃ w, heap s !! l = Some w ∧ WallClock.db w = None
  end.

(** The template [getDbTemplate] works with in state [s], the moment at
    which [add] then calls [sql.Open], and the target it passes. *)
Definition template (W : World) (s : State) : string :=
  if decide (dbTemplate s = "") then Getenv W (now s) "WALLCLOCK_DB"
  else dbTemplate s.

Definition open_time (s : State) : nat :=
  if decide (dbTemplate s = "") then S (now s) else now s.

Definition target (W : World) (name : string) (s : State) : string :=
  Strings.Replace1 (template W s) "$database$" name.

(** Both goroutines read the map before either has stored. *)
Definition race : list nat :=
  [0; 0; 0;  1; 1; 1;  0; 0; 0; 0; 0;  1; 1; 1; 1; 1].


(** ** The test suite

    The tests of the package all have one shape: obtain the clock
    [rainer], issue a number of TSNs from it, print the last.  A test
    prints one line of its own, as the last thing it does: the error
    before [t.FailNow()], or the count and the last TSN.  The verdict of
    a test carries that line; the lines of the package itself are in
    [stdout]. *)

Inductive test_line : Type :=
  | PANIC (err : error)                  (* [PANIC err] *)
  | NEW_TSN (count : string) (tsn : Z).  (* [count x NEW TSN tsn] *)

Inductive verdict : Type :=
  | PASS (out : test_line)
  | FAIL (out : test_line).              (* left by [t.FailNow()] *)

Section Tests.

Variable W : World.

(** [[
      for i := 0; i < n; i++ {
        tsn, err = wc.NewTSN()
        if err != nil { fmt.Printf(..., err); t.FailNow() }
      }
    ]]
    with the [n - i] rounds still to run: the last TSN, or the error
    with which the test is left. *)
Fixpoint TestNewTSN_loop (n : nat) (wc : option loc) (tsn : Z) : M (Z + error) :=
  match n with
  | 0 => ret (inl tsn)
  | S n' =>
      do '(tsn', err) <- NewTSN W wc;
      match err with
      | Some e => ret (inr e)
      | None => TestNewTSN_loop n' wc tsn'
      end
  end.

(** The four tests with a loop, for the bound [n] and the [count]
    printed in the last line. *)
Definition TestNewTSN_n (n : nat) (count : string) : M verdict :=
  do '(wc, err) <- GetWallClock W "rainer";
  match err with
  | Some e => ret (FAIL (PANIC e))
  | None =>
      do r <- TestNewTSN_loop n wc 0%Z;
      match r with
      | inr e => ret (FAIL (PANIC e))
      | inl tsn => ret (PASS (NEW_TSN count tsn))
      end
  end.

(** [TestNewTSN]: one TSN, without a loop. *)
Definition TestNewTSN : M verdict :=
  do '(wc, err) <- GetWallClock W "rainer";
  match err with
  | Some e => ret (FAIL (PANIC e))
  | None =>
      do '(tsn, err) <- NewTSN W wc;
      match err with
      | Some e => ret (FAIL (PANIC e))
      | None => ret (PASS (NEW_TSN "1" tsn))
      end
  end.

Definition TestNewTSN100 : M verdict := TestNewTSN_n 100 "100".
Definition TestNewTSN1000 : M verdict := TestNewTSN_n 1000 "1000".
Definition TestNewTSN10000 : M verdict := TestNewTSN_n (Z.to_nat 10000) "10000".
Definition TestNewTSN100000 : M verdict := TestNewTSN_n (Z.to_nat 100000) "100000".

End Tests.

(** ** More notions used in the statements *)

(** The calls a client of the package can make. *)
Definition exported (c : call) : bool :=
  match c with
  | CallGetWallClock _ | CallNewTSN _ => true
  | _ => false
  end.

(** Nothing but the clock of outside calls and the output has changed. *)
Definition core_kept (s s' : State) : Prop :=
  wallclocks s' = wallclocks s ∧
  wallclocksRWLock s' = wallclocksRWLock s ∧
  dbTemplate s' = dbTemplate s ∧
  heap s' = heap s ∧
  dbs s' = dbs s.

(** The map, the mutex, the heap and the count of connections are as
    they were. *)
Definition registry_kept (s s' : State) : Prop :=
  wallclocks s' = wallclocks s ∧
  wallclocksRWLock s' = wallclocksRWLock s ∧
  heap s' = heap s ∧
  dbs s' = dbs s.

(** The registry is in order: the mutex is free; every name in the map
    is bound to a struct that carries this name and a connection; every
    connection in the heap is one [sql.Open] has returned; and no two
    structs share a connection. *)
Record registry_ok (s : State) : Prop := {
  ok_mutex : wallclocksRWLock s = Sync.unlocked;
  ok_handle : ∀ name l, wallclocks s !! name = Some l →
              ∃ c dn, heap s !! l = Some (WallClock.mk (Some c) name dn);
  ok_conn : ∀ l w c, heap s !! l = Some w → WallClock.db w = Some c →
            (c < dbs s)%nat;
  ok_conn_inj : ∀ l l' w w' c,
      heap s !! l = Some w → heap s !! l' = Some w' →
      WallClock.db w = Some c → WallClock.db w' = Some c → l = l';
}.

(** Goroutines that hold the read lock, that hold the write lock, that
    have died; and how many of a list do. *)
Definition reading (p : Sched.pc) : nat :=
  match p with
  | Sched.AtLookup _ | Sched.AtRUnlock _ _ => 1
  | _ => 0
  end.

Definition writing (p : Sched.pc) : nat :=
  match p with
  | Sched.AtStore _ _ _ | Sched.AtUnlock _ _ _ => 1
  | _ => 0
  end.

Definition dead (p : Sched.pc) : nat :=
  match p with
  | Sched.Dead _ => 1
  | _ => 0
  end.

Definition count (f : Sched.pc → nat) (ps : list Sched.pc) : nat :=
  foldr (λ p n, (f p + n)%nat) 0%nat ps.

(** The mutex accounts for the goroutines: its reader count is the
    number of goroutines that read, its writer flag is set exactly when
    one goroutine writes, and then nobody reads; nobody has died. *)
Definition mutex_accounts (c : Sched.config) : Prop :=
  Sync.readers (wallclocksRWLock c.2) = count reading c.1 ∧
  count writing c.1 = (if Sync.writer (wallclocksRWLock c.2) then 1 else 0)%nat ∧
  (Sync.writer (wallclocksRWLock c.2) = true → count reading c.1 = 0%nat) ∧
  count dead c.1 = 0%nat.

(** ** Worlds and states used as examples *)

(** A world where the template is configured and the database answers. *)
Definition W_up : World :=
  {| Getenv := λ _ _, "host=localhost dbname=$database$ sslmode=disable";
     Open := λ _ _ _, None;
     Ping := λ _ _, None;
     QueryRow := λ t _ _, RowInt64 (Z.of_nat t) |}.

(** The same, but nothing listens at the database's address: [sql.Open]
    succeeds (it only prepares the pool) and [Ping] fails. *)
Definition W_down : World :=
  {| Getenv := λ _ _, "host=localhost dbname=$database$ sslmode=disable";
     Open := λ _ _ _, None;
     Ping := λ _ _, Some (errors_New "dial tcp 127.0.0.1:5432: connect: connection refused");
     QueryRow := λ _ _ _, RowQueryError (errors_New "dial tcp 127.0.0.1:5432: connect: connection refused") |}.

(** The state after [GetWallClock("rainer")] succeeded in [W_up]. *)
Definition s_rainer : State := (GetWallClock W_up "rainer" init).2.

(** * Proofs *)

(** *** Facts about the string functions *)

Section StringFacts.

Import Strings.

Lemma str_app_nil_l (s : string) : "" +:+ s = s.
Proof. reflexivity. Qed.

Lemma str_app_cons (a : ascii) (s t : string) :
  String a s +:+ t = String a (s +:+ t).
Proof. reflexivity. Qed.

Lemma str_app_assoc (s t u : string) : (s +:+ t) +:+ u = s +:+ (t +:+ u).
Proof.
  induction s as [|a s IH]; [done |].
  by rewrite !str_app_cons, IH.
Qed.

Lemma str_app_length (s t : string) :
  String.length (s +:+ t) = String.length s + String.length t.
Proof.
  induction s as [|a s IH]; [done |].
  rewrite str_app_cons. simpl. by rewrite IH.
Qed.

Lemma HasPrefix_append (p post : string) : HasPrefix (p +:+ post) p = true.
Proof.
  induction p as [|a p IH]; [reflexivity |].
  rewrite str_app_cons. simpl. by rewrite decide_True.
Qed.

Lemma HasPrefix_inv (s p : string) :
  HasPrefix s p = true → ∃ post, s = p +:+ post.
Proof.
  revert s. induction p as [|a p IH]; intros s H.
  - by exists s.
  - destruct s as [|b s]; simpl in H; [done |].
    destruct (decide (a = b)) as [->|]; [| done].
    destruct (IH _ H) as [post ->]. by exists post.
Qed.

Lemma slice_to_append (pre rest : string) :
  slice_to (String.length pre) (pre +:+ rest) = pre.
Proof.
  induction pre as [|a pre IH]; [by destruct rest |].
  rewrite str_app_cons. simpl. by rewrite IH.
Qed.

Lemma slice_from_append (pre rest : string) :
  slice_from (String.length pre) (pre +:+ rest) = rest.
Proof.
  induction pre as [|a pre IH]; [by destruct rest |].
  by rewrite str_app_cons.
Qed.

Lemma occurs_at_0 (p s : string) : occurs_at 0 p s ↔ HasPrefix s p = true.
Proof.
  split.
  - intros (pre & post & -> & Hlen).
    destruct pre; [| done]. rewrite str_app_nil_l. apply HasPrefix_append.
  - intros [post ->]%HasPrefix_inv. by exists "", post.
Qed.

Lemma occurs_at_S (j : nat) (p : string) (a : ascii) (s : string) :
  occurs_at (S j) p (String a s) ↔ occurs_at j p s.
Proof.
  split.
  - intros (pre & post & Heq & Hlen).
    destruct pre as [|b pre]; [done |].
    rewrite str_app_cons in Heq. simpl in Hlen.
    injection Heq as -> ->. injection Hlen as Hlen. by exists pre, post.
  - intros (pre & post & -> & Hlen).
    exists (String a pre), post. simpl. by rewrite Hlen.
Qed.

Lemma occurs_at_nil (j : nat) (p : string) :
  occurs_at j p "" → j = 0.
Proof.
  intros (pre & post & Heq & Hlen). destruct pre; [done |].
  by rewrite str_app_cons in Heq.
Qed.

(** [Index] finds an occurrence, and no occurrence starts before it. *)
Lemma Index_Some (s p : string) (j : nat) :
  Index s p = Some j →
  occurs_at j p s ∧ ∀ i, occurs_at i p s → (j ≤ i)%nat.
Proof.
  revert j. induction s as [|a s IH]; intros j; simpl Index.
  - destruct (HasPrefix "" p) eqn:Hp; [| done].
    intros [= <-]. split; [by apply occurs_at_0 | lia].
  - destruct (HasPrefix (String a s) p) eqn:Hp.
    + intros [= <-]. split; [by apply occurs_at_0 | lia].
    + destruct (Index s p) as [k|] eqn:Hk; [| done].
      intros [= <-]. destruct (IH k eq_refl) as [Hocc Hmin]. split.
      * by apply occurs_at_S.
      * intros [|i] Hi.
        -- apply occurs_at_0 in Hi. congruence.
        -- apply occurs_at_S, Hmin in Hi. lia.
Qed.

(** [Index] reports absence only when there is no occurrence at all. *)
Lemma Index_None (s p : string) :
  Index s p = None → ∀ i, ¬ occurs_at i p s.
Proof.
  induction s as [|a s IH]; simpl Index.
  - destruct (HasPrefix "" p) eqn:Hp; [done |].
    intros _ i Hi. pose proof (occurs_at_nil _ _ Hi) as ->.
    apply occurs_at_0 in Hi. congruence.
  - destruct (HasPrefix (String a s) p) eqn:Hp; [done |].
    destruct (Index s p) as [k|] eqn:Hk; [done |].
    intros _ [|i] Hi.
    + apply occurs_at_0 in Hi. congruence.
    + apply occurs_at_S in Hi. by apply (IH eq_refl i).
Qed.

(** What [Replace1] computes, in terms of occurrences. *)
Lemma Replace1_first (pre old post new : string) :
  (∀ i, occurs_at i old (pre +:+ old +:+ post) → (String.length pre ≤ i)%nat) →
  Replace1 (pre +:+ old +:+ post) old new = pre +:+ new +:+ post.
Proof.
  intros Hmin. unfold Replace1.
  destruct (decide (old = new)) as [->|Hne]; [done |].
  destruct (Index (pre +:+ old +:+ post) old) as [j|] eqn:Hj.
  - apply Index_Some in Hj as [Hocc Hj].
    assert (j = String.length pre) as ->.
    { apply Nat.le_antisymm; [apply Hj; by exists pre, post | by apply Hmin]. }
    rewrite slice_to_append.
    rewrite <- (str_app_length pre old), <- (str_app_assoc pre old post).
    by rewrite slice_from_append.
  - exfalso. apply (Index_None _ _ Hj (String.length pre)). by exists pre, post.
Qed.

Lemma Replace1_absent (s old new : string) :
  (∀ i, ¬ occurs_at i old s) → Replace1 s old new = s.
Proof.
  intros Hno. unfold Replace1.
  destruct (decide (old = new)); [done |].
  destruct (Index s old) as [j|] eqn:Hj; [| done].
  apply Index_Some in Hj as [Hocc _]. by destruct (Hno j).
Qed.

End StringFacts.

(** ** Relations between the state before and after that every call keeps *)

Section Keeps.

Variable R : relation State.
Context `{!PreOrder R}.

Lemma keeps_ret {A} (a : A) : keeps R (ret a).
Proof. intros s. reflexivity. Qed.

Lemma keeps_panic {A} (v : panic_value) : keeps R (@panic A v).
Proof. intros s. reflexivity. Qed.

Lemma keeps_gets {A} (f : State → A) : keeps R (gets f).
Proof. intros s. reflexivity. Qed.

Lemma keeps_modify (f : State → State) : (∀ s, R s (f s)) → keeps R (modify f).
Proof. intros Hf s. apply Hf. Qed.

Lemma keeps_bind {A B} (m : M A) (k : A → M B) :
  keeps R m → (∀ a, keeps R (k a)) → keeps R (bind m k).
Proof.
  intros Hm Hk s. unfold bind. specialize (Hm s).
  destruct (m s) as [[a | v | | msg] s']; simpl in *; try done.
  etrans; [exact Hm | apply Hk].
Qed.

Lemma keeps_recovering {R'} (zero : R') (body : M R') handler :
  keeps R body → keeps R (recovering zero body handler).
Proof.
  intros Hb s. unfold recovering. specialize (Hb s).
  by destruct (body s) as [[a | v | | msg] s'].
Qed.

(** The ways in which the package changes the state. *)
Hypothesis R_tick : ∀ s, R s (tick s).
Hypothesis R_print : ∀ l s, R s (print l s).
Hypothesis R_heap : ∀ f s, R s (set_heap f s).
Hypothesis R_dbs : ∀ n s, R s (set_dbs n s).
Hypothesis R_lock : ∀ f s, R s (set_wallclocksRWLock f s).
Hypothesis R_insert : ∀ name wc s, R s (set_wallclocks <[name := wc]> s).
Hypothesis R_template : ∀ v s, dbTemplate s = "" → R s (set_dbTemplate v s).

Variable W : World.

Local Ltac keeps_step :=
  lazymatch goal with
  | |- keeps R (ret _) => apply keeps_ret
  | |- keeps R (panic _) => apply keeps_panic
  | |- keeps R (gets _) => apply keeps_gets
  | |- keeps R (modify _) => apply keeps_modify; auto
  | |- keeps R (recovering _ _ _) => apply keeps_recovering
  | |- keeps R (bind _ _) => apply keeps_bind; [| intros ?]
  end.

Lemma keeps_RLock : keeps R RWMutex.RLock.
Proof.
  intros s. unfold RWMutex.RLock.
  destruct (Sync.writer _); simpl; [reflexivity | apply R_lock].
Qed.

Lemma keeps_RUnlock : keeps R RWMutex.RUnlock.
Proof.
  intros s. unfold RWMutex.RUnlock.
  destruct (Sync.readers _); simpl; [reflexivity | apply R_lock].
Qed.

Lemma keeps_Lock : keeps R RWMutex.Lock.
Proof.
  intros s. unfold RWMutex.Lock.
  destruct (Sync.writer _); simpl; [reflexivity |].
  destruct (Sync.readers _); simpl; [apply R_lock | reflexivity].
Qed.

Lemma keeps_Unlock : keeps R RWMutex.Unlock.
Proof.
  intros s. unfold RWMutex.Unlock.
  destruct (Sync.writer _); simpl; [apply R_lock | reflexivity].
Qed.

Lemma keeps_checkString (name value : string) : keeps R (checkString name value).
Proof. unfold checkString. keeps_step. Qed.

Lemma keeps_checkErr (trace : string) (err : option error) :
  keeps R (checkErr trace err).
Proof. destruct err; unfold checkErr; repeat keeps_step. Qed.

Lemma keeps_getDbTemplate : keeps R (getDbTemplate W).
Proof.
  intros s. unfold getDbTemplate, bind, gets, os_Getenv, modify, ret. simpl.
  destruct (decide (dbTemplate s = "")) as [He|]; simpl; [| reflexivity].
  etrans; [apply R_tick | by apply R_template].
Qed.

Lemma keeps_dbname (name : string) : keeps R (dbname W name).
Proof.
  unfold dbname. apply keeps_bind; [apply keeps_getDbTemplate | intros t].
  apply keeps_bind; [apply keeps_checkString | intros _]. keeps_step.
Qed.

Lemma keeps_ping (db : option conn) : keeps R (ping W db).
Proof.
  unfold ping. apply keeps_bind; [| intros err; apply keeps_checkErr].
  intros s. unfold DB_Ping. destruct db; simpl; [apply R_tick | reflexivity].
Qed.

Lemma keeps_newTSN (db : option conn) : keeps R (newTSN W db).
Proof.
  unfold newTSN. apply keeps_bind; [| intros row].
  - intros s. unfold DB_QueryRow. destruct db; simpl; [apply R_tick | reflexivity].
  - apply keeps_bind; [apply keeps_ret | intros _].
    destruct (Row_Scan row 0) as [tsn err].
    apply keeps_bind; [apply keeps_checkErr | intros _]. keeps_step.
Qed.

Lemma keeps_sql_Open (driverName dataSourceName : string) :
  keeps R (sql_Open W driverName dataSourceName).
Proof.
  intros s. unfold sql_Open. destruct (Open _ _ _ _); simpl; [apply R_tick |].
  etrans; [apply R_dbs | apply R_tick].
Qed.

Lemma keeps_add_open (name : string) : keeps R (add_open W name).
Proof.
  unfold add_open, store.
  apply keeps_bind; [intros s; apply R_heap | intros wc].
  apply keeps_bind; [keeps_step | intros _].
  apply keeps_bind; [apply keeps_dbname | intros dn].
  apply keeps_bind; [keeps_step | intros _].
  apply keeps_bind; [apply keeps_sql_Open | intros [db err]].
  apply keeps_bind; [apply keeps_checkErr | intros _].
  apply keeps_bind; [keeps_step | intros _].
  keeps_step.
Qed.

Lemma keeps_add_store (name : string) (wc : loc) : keeps R (add_store name wc).
Proof. unfold add_store. keeps_step. Qed.

Lemma keeps_add (name : string) : keeps R (add W name).
Proof.
  unfold add.
  apply keeps_bind; [apply keeps_add_open | intros [wc db]].
  apply keeps_bind; [apply keeps_Lock | intros _].
  apply keeps_bind; [apply keeps_add_store | intros _].
  apply keeps_bind; [apply keeps_Unlock | intros _].
  apply keeps_bind; [apply keeps_ping | intros _].
  keeps_step.
Qed.

Lemma keeps_get_found (name : string) (wc : loc) : keeps R (get_found name wc).
Proof.
  unfold get_found.
  apply keeps_bind; [apply keeps_checkString | intros _]. keeps_step.
Qed.

Lemma keeps_get (name : string) : keeps R (get W name).
Proof.
  unfold get.
  apply keeps_bind; [apply keeps_RLock | intros _].
  apply keeps_bind; [apply keeps_gets | intros [wc|]];
    (apply keeps_bind; [apply keeps_RUnlock | intros _]).
  - apply keeps_get_found.
  - apply keeps_add.
Qed.

Lemma keeps_GetWallClock (name : string) : keeps R (GetWallClock W name).
Proof.
  unfold GetWallClock. keeps_step.
  apply keeps_bind; [apply keeps_get | intros wc]. keeps_step.
Qed.

Lemma keeps_NewTSN (wc : option loc) : keeps R (NewTSN W wc).
Proof.
  unfold NewTSN. keeps_step.
  apply keeps_bind; [| intros db].
  - intros s. unfold load_db. by destruct (wc ≫= _).
  - apply keeps_bind; [apply keeps_newTSN | intros tsn]. keeps_step.
Qed.

Lemma keeps_exec (c : call) (s : State) : R s (exec W c s).
Proof.
  destruct c; simpl.
  - apply keeps_GetWallClock.
  - apply keeps_NewTSN.
  - apply keeps_get.
  - apply keeps_add.
  - apply keeps_dbname.
  - apply keeps_getDbTemplate.
  - apply keeps_ping.
  - apply keeps_newTSN.
Qed.

Lemma keeps_execs (cs : list call) (s : State) : R s (execs W cs s).
Proof.
  revert s. induction cs as [|c cs IH]; intros s; simpl; [reflexivity |].
  etrans; [apply keeps_exec | apply IH].
Qed.

Lemma keeps_action (p : Sched.pc) : keeps R (Sched.action W p).
Proof.
  destruct p; unfold Sched.action;
    try (apply keeps_bind; [| intros x; try keeps_step]).
  - apply keeps_RLock.
  - apply keeps_gets.
  - apply keeps_RUnlock.
  - apply keeps_get_found.
  - apply keeps_add_open.
  - destruct x. keeps_step.
  - apply keeps_Lock.
  - apply keeps_add_store.
  - apply keeps_Unlock.
  - apply keeps_ping.
  - keeps_step.
  - keeps_step.
Qed.

Lemma keeps_step (p : Sched.pc) (s : State) : R s (Sched.step W p s).2.
Proof.
  unfold Sched.step. pose proof (keeps_action p s) as H.
  by destruct (Sched.action W p s) as [[p' | v | | msg] s'].
Qed.

Lemma keeps_run (schedule : list nat) (c : Sched.config) :
  R c.2 (Sched.run W schedule c).2.
Proof.
  revert c. induction schedule as [|i sch IH]; intros c; simpl; [reflexivity |].
  etrans; [| apply IH]. unfold Sched.move.
  destruct (c.1 !! i) as [p|]; simpl; [| reflexivity].
  pose proof (keeps_step p c.2) as H.
  by destruct (Sched.step W p c.2).
Qed.

End Keeps.

(** ** The registry only grows *)

Global Instance grows_preorder : PreOrder grows.
Proof.
  split.
  - intros s. unfold grows. set_solver.
  - intros s1 s2 s3. unfold grows. set_solver.
Qed.

Lemma grows_insert (name : string) (wc : loc) (s : State) :
  grows s (set_wallclocks <[name := wc]> s).
Proof. unfold grows. simpl. rewrite dom_insert_L. set_solver. Qed.

(** The other changes to the state leave the map alone. *)
Local Ltac grows_same := intros; unfold grows; simpl; set_solver.

(** C7: no call of the package, no sequence of calls and no interleaving
    of goroutines inside [GetWallClock] removes a name from
    [wallclocks]: the names present before are present after. *)
Theorem registry_only_grows (W : World) :
  (∀ (c : call) (s : State),
      dom (wallclocks s) ⊆ dom (wallclocks (exec W c s))) ∧
  (∀ (cs : list call) (s : State),
      dom (wallclocks s) ⊆ dom (wallclocks (execs W cs s))) ∧
  (∀ (schedule : list nat) (c : Sched.config),
      dom (wallclocks c.2) ⊆ dom (wallclocks (Sched.run W schedule c).2)).
Proof.
  split; [| split]; intros x y.
  - apply (keeps_exec grows); solve [grows_same | apply grows_insert].
  - apply (keeps_execs grows); solve [grows_same | apply grows_insert].
  - apply (keeps_run grows); solve [grows_same | apply grows_insert].
Qed.

(** ** The template is read once *)

Global Instance template_kept_preorder : PreOrder template_kept.
Proof.
  split.
  - by intros s _.
  - intros s1 s2 s3 H12 H23 Hne. unfold template_kept in *.
    rewrite H23; [by apply H12 |]. by rewrite H12.
Qed.

Lemma getDbTemplate_cached (W : World) (s : State) :
  dbTemplate s ≠ "" → getDbTemplate W s = (Ret (dbTemplate s), s).
Proof.
  intros Hne. unfold getDbTemplate, bind, gets. simpl.
  by rewrite decide_False.
Qed.

Lemma getDbTemplate_empty (W : World) (s : State) :
  dbTemplate s = "" →
  getDbTemplate W s =
    (Ret (Getenv W (now s) "WALLCLOCK_DB"),
     set_dbTemplate (Getenv W (now s) "WALLCLOCK_DB") (tick s)).
Proof.
  intros He. unfold getDbTemplate, bind, gets. simpl.
  by rewrite decide_True.
Qed.



(** ** The connection target *)

Lemma getDbTemplate_returns (W : World) (s : State) :
  ∃ T s', getDbTemplate W s = (Ret T, s').
Proof.
  destruct (decide (dbTemplate s = "")) as [He|Hne].
  - rewrite (getDbTemplate_empty W s He). eauto.
  - rewrite (getDbTemplate_cached W s Hne). eauto.
Qed.

Lemma dbname_unfold (W : World) (name : string) (s : State) (T : string)
    (s' : State) :
  getDbTemplate W s = (Ret T, s') →
  dbname W name s =
    (Ret (Strings.Replace1 T "$database$" name),
     print (CHECK "generated database name"
              (Strings.Replace1 T "$database$" name)) s').
Proof. intros H. unfold dbname, bind. by rewrite H. Qed.

(** C6: for the template [T] that [getDbTemplate] delivers and the clock
    name [N], [dbname] returns [T] with the first occurrence of
    [$database$] replaced by [N]: whenever [T] is [pre], the placeholder
    and [post], with no occurrence of the placeholder starting before
    the end of [pre], the result is [pre], [N] and [post], so that all
    of [post], later placeholders included, is left as it was; and when
    the placeholder does not occur in [T], the result is [T]. *)
Theorem dbname_replaces_first_placeholder (W : World) (N : string) (s : State)
    (T : string) :
  (getDbTemplate W s).1 = Ret T →
  ∃ dn, (dbname W N s).1 = Ret dn ∧
    (∀ pre post,
        T = pre +:+ "$database$" +:+ post →
        (∀ i, occurs_at i "$database$" T → (String.length pre ≤ i)%nat) →
        dn = pre +:+ N +:+ post) ∧
    ((∀ i, ¬ occurs_at i "$database$" T) → dn = T).
Proof.
  intros HT. destruct (getDbTemplate_returns W s) as (T' & s' & Hget).
  rewrite Hget in HT. simpl in HT. injection HT as ->.
  rewrite (dbname_unfold W N s T s' Hget). simpl.
  eexists. split; [reflexivity |]. split.
  - intros pre post -> Hmin. by apply Replace1_first.
  - intros Hno. by apply Replace1_absent.
Qed.

Lemma dbname_replaces_first_placeholder_witness :
  (getDbTemplate W_up init).1
    = Ret "host=localhost dbname=$database$ sslmode=disable" ∧
  ∃ dn, (dbname W_up "rainer" init).1 = Ret dn ∧
    (∀ pre post,
        "host=localhost dbname=$database$ sslmode=disable"
          = pre +:+ "$database$" +:+ post →
        (∀ i, occurs_at i "$database$"
                "host=localhost dbname=$database$ sslmode=disable" →
              (String.length pre ≤ i)%nat) →
        dn = pre +:+ "rainer" +:+ post) ∧
    ((∀ i, ¬ occurs_at i "$database$"
              "host=localhost dbname=$database$ sslmode=disable") →
     dn = "host=localhost dbname=$database$ sslmode=disable").
Proof.
  split; [reflexivity |].
  apply (dbname_replaces_first_placeholder W_up "rainer" init).
  reflexivity.
Defined.

(** Two placeholders: only the first is replaced. *)
Example dbname_two_placeholders :
  Strings.Replace1 "db=$database$ user=$database$" "$database$" "rainer"
  = "db=rainer user=$database$".
Proof. reflexivity. Qed.

(** ** Issuing a TSN *)

Lemma NewTSN_unfold (W : World) (wc : option loc) (s : State) :
  NewTSN W wc s =
    match wc ≫= (λ l, heap s !! l) with
    | None => (Ret (0%Z, Some (errors_New "error while reading TSN")), s)
    | Some w =>
        match WallClock.db w with
        | None => (Ret (0%Z, Some (errors_New "error while reading TSN")), s)
        | Some c =>
            match QueryRow W (now s) c "select clock.new_tsn()" with
            | RowInt64 v => (Ret (v, None), tick s)
            | RowQueryError e | RowUndecodable e =>
                (Ret (0%Z, Some (errors_New "error while reading TSN")),
                 print (ERROR e) (tick s))
            | RowNone =>
                (Ret (0%Z, Some (errors_New "error while reading TSN")),
                 print (ERROR sql_ErrNoRows) (tick s))
            end
        end
    end.
Proof.
  unfold NewTSN, recovering, bind, load_db.
  destruct (wc ≫= _) as [w|]; [| done].
  unfold newTSN, bind, DB_QueryRow.
  destruct (WallClock.db w) as [c|]; [| done].
  by destruct (QueryRow W (now s) c _).
Qed.

(** C4: on a handle that points to a [WallClock] with a connection,
    [NewTSN] makes one round trip; when it yields an int64, [NewTSN]
    returns that value and a nil error; when the query fails, yields no
    row, or yields a row that does not decode, [NewTSN] returns 0 and
    the error [error while reading TSN], whatever the cause was.  It
    returns in every case. *)
Theorem NewTSN_error_iff_round_trip_fails (W : World) (s : State) (l : loc)
    (w : WallClock.t) (c : conn) :
  heap s !! l = Some w →
  WallClock.db w = Some c →
  ∃ tsn err,
    (NewTSN W (Some l) s).1 = Ret (tsn, err) ∧
    (err ≠ None ↔
       ∀ v, QueryRow W (now s) c "select clock.new_tsn()" ≠ RowInt64 v) ∧
    (∀ v, QueryRow W (now s) c "select clock.new_tsn()" = RowInt64 v →
          tsn = v ∧ err = None) ∧
    (err ≠ None →
       tsn = 0%Z ∧ err = Some (errors_New "error while reading TSN")).
Proof.
  intros Hl Hc. rewrite NewTSN_unfold. simpl. rewrite Hl. simpl. rewrite Hc.
  destruct (QueryRow W (now s) c _) as [e | | e | v]; simpl;
    eexists _, _; (split; [reflexivity |]).
  - by repeat split.
  - by repeat split.
  - by repeat split.
  - split; [| split].
    + split; [done |]. intros H. by destruct (H v).
    + by intros v' [= ->].
    + done.
Qed.

Lemma NewTSN_error_iff_round_trip_fails_witness :
  heap s_rainer !! 0 = Some (WallClock.mk (Some 0) "rainer"
                               "host=localhost dbname=rainer sslmode=disable") ∧
  ∃ tsn err,
    (NewTSN W_down (Some 0) s_rainer).1 = Ret (tsn, err) ∧
    (err ≠ None ↔
       ∀ v, QueryRow W_down (now s_rainer) 0 "select clock.new_tsn()" ≠ RowInt64 v) ∧
    (∀ v, QueryRow W_down (now s_rainer) 0 "select clock.new_tsn()" = RowInt64 v →
          tsn = v ∧ err = None) ∧
    (err ≠ None →
       tsn = 0%Z ∧ err = Some (errors_New "error while reading TSN")).
Proof.
  split; [reflexivity |].
  apply (NewTSN_error_iff_round_trip_fails W_down s_rainer 0
           (WallClock.mk (Some 0) "rainer"
              "host=localhost dbname=rainer sslmode=disable") 0);
    reflexivity.
Defined.

(** C10: on a nil handle, and on a handle whose connection is nil,
    [NewTSN] returns: the dereference panics, the deferred closure
    recovers, and the caller gets the zero TSN and the error
    [error while reading TSN].  Nothing else happened: the state is as
    before. *)
Theorem NewTSN_invalid_handle (W : World) (s : State) (wc : option loc) :
  invalid_handle s wc →
  NewTSN W wc s = (Ret (0%Z, Some (errors_New "error while reading TSN")), s).
Proof.
  intros Hinv. rewrite NewTSN_unfold.
  destruct wc as [l|]; simpl; [| done].
  destruct Hinv as (w & -> & Hdb). simpl. by rewrite Hdb.
Qed.

Lemma NewTSN_invalid_handle_witness :
  invalid_handle (set_heap (λ h, h ++ [WallClock.zero])%list init) (Some 0) ∧
  invalid_handle init None ∧
  NewTSN W_up (Some 0) (set_heap (λ h, h ++ [WallClock.zero])%list init)
  = (Ret (0%Z, Some (errors_New "error while reading TSN")),
     set_heap (λ h, h ++ [WallClock.zero])%list init) ∧
  NewTSN W_up None init
  = (Ret (0%Z, Some (errors_New "error while reading TSN")), init).
Proof.
  assert (invalid_handle (set_heap (λ h, h ++ [WallClock.zero])%list init) (Some 0))
    as H0 by (by exists WallClock.zero).
  split; [exact H0 |]. split; [exact I |]. split.
  - exact (NewTSN_invalid_handle W_up _ (Some 0) H0).
  - exact (NewTSN_invalid_handle W_up init None I).
Defined.

(** ** What [add], [get] and [GetWallClock] do, case by case *)

Lemma getDbTemplate_template (W : World) (s : State) :
  (getDbTemplate W s).1 = Ret (template W s) ∧
  now (getDbTemplate W s).2 = open_time s.
Proof.
  unfold template, open_time.
  destruct (decide (dbTemplate s = "")) as [He|Hne].
  - by rewrite (getDbTemplate_empty W s He).
  - by rewrite (getDbTemplate_cached W s Hne).
Qed.

Lemma alter_new {A} (f : A → A) (h : list A) (x : A) :
  alter f (length h) (h ++ [x])%list = (h ++ [f x])%list.
Proof.
  induction h as [|y h IH]; simpl; [done |]. f_equal. exact IH.
Qed.

(** [add], up to the point where it takes the write lock: a new struct
    at the end of the heap, the template read if it was not yet, the
    target traced, and [sql.Open] called; nothing else has changed. *)
Lemma add_open_spec (W : World) (name : string) (s : State) :
  ∃ s',
    wallclocks s' = wallclocks s ∧
    wallclocksRWLock s' = wallclocksRWLock s ∧
    dbTemplate s' = template W s ∧
    now s' = S (open_time s) ∧
    match Open W (open_time s) "postgres" (target W name s) with
    | Some e =>
        add_open W name s = (Panic (PanicError e), s') ∧
        heap s' = (heap s ++ [WallClock.mk None name (target W name s)])%list ∧
        dbs s' = dbs s
    | None =>
        add_open W name s = (Ret (length (heap s), Some (dbs s)), s') ∧
        heap s' = (heap s ++ [WallClock.mk (Some (dbs s)) name (target W name s)])%list ∧
        dbs s' = S (dbs s)
    end.
Proof.
  destruct s as [m lk t h d n o].
  unfold add_open, target, template, open_time, bind, new_WallClock, store,
    modify, dbname, getDbTemplate, bind, gets, os_Getenv, modify, checkString,
    sql_Open, checkErr, bind, modify, panic, ret.
  simpl.
  destruct (decide (t = "")) as [->|Hne]; simpl.
  - destruct (Open W (S n) _ _) as [e|]; simpl;
      eexists; repeat split; try reflexivity;
      simpl; rewrite !alter_new; reflexivity.
  - destruct (Open W n _ _) as [e|]; simpl;
      eexists; repeat split; try reflexivity;
      simpl; rewrite !alter_new; reflexivity.
Qed.

(** [add] with the mutex free: when [sql.Open] fails it panics with the
    map untouched; otherwise the new handle is stored under [name], and
    only then does [Ping] decide between a return and a panic. *)
Lemma add_spec (W : World) (name : string) (s : State) :
  wallclocksRWLock s = Sync.unlocked →
  ∃ s',
    wallclocksRWLock s' = Sync.unlocked ∧
    dbTemplate s' = template W s ∧
    match Open W (open_time s) "postgres" (target W name s) with
    | Some e =>
        add W name s = (Panic (PanicError e), s') ∧
        wallclocks s' = wallclocks s ∧
        heap s' = (heap s ++ [WallClock.mk None name (target W name s)])%list ∧
        dbs s' = dbs s ∧
        now s' = S (open_time s)
    | None =>
        wallclocks s' = <[name := length (heap s)]> (wallclocks s) ∧
        heap s' = (heap s ++ [WallClock.mk (Some (dbs s)) name (target W name s)])%list ∧
        dbs s' = S (dbs s) ∧
        now s' = S (S (open_time s)) ∧
        match Ping W (S (open_time s)) (dbs s) with
        | Some e => add W name s = (Panic (PanicError e), s')
        | None => add W name s = (Ret (Some (length (heap s))), s')
        end
    end.
Proof.
  intros Hfree.
  destruct (add_open_spec W name s) as (s1 & Hm & Hlk & Ht & Hn & H).
  rewrite Hfree in Hlk. unfold add, bind.
  destruct (Open W (open_time s) "postgres" (target W name s)) as [e|].
  - destruct H as (-> & Hh & Hd). by exists s1.
  - destruct H as (-> & Hh & Hd).
    unfold RWMutex.Lock. rewrite Hlk. simpl.
    unfold ping, bind, DB_Ping. simpl. rewrite Hn.
    destruct (Ping W (S (open_time s)) (dbs s)) as [e|]; simpl;
      eexists; split_and!; try reflexivity; simpl;
      rewrite ?Hlk, ?Hm, ?Hn; done.
Qed.

(** [get] with the mutex free. *)
Lemma get_spec (W : World) (name : string) (s : State) :
  wallclocksRWLock s = Sync.unlocked →
  get W name s =
    match wallclocks s !! name with
    | Some wc => (Ret (Some wc), print (CHECK "get wallclock ok" name) s)
    | None => add W name s
    end.
Proof.
  intros Hfree. destruct s as [m lk t h d n o]. simpl in *. subst lk.
  unfold get, bind, RWMutex.RLock, RWMutex.RUnlock, get_lookup, gets. simpl.
  by destruct (m !! name).
Qed.

Lemma GetWallClock_unfold (W : World) (name : string) (s : State) :
  GetWallClock W name s =
    match get W name s with
    | (Ret wc, s') => (Ret (wc, None), s')
    | (Panic v, s') =>
        (Ret (None, Some (errors_New "cannot create wall clock")), s')
    | (Blocked, s') => (Blocked, s')
    | (Fatal msg, s') => (Fatal msg, s')
    end.
Proof.
  unfold GetWallClock, recovering, bind.
  by destruct (get W name s) as [[wc | v | | msg] s'].
Qed.

(** [GetWallClock] with the mutex free: it returns, with the mutex free
    again; the handle and the error it returns and the map it leaves are
    these. *)
Lemma GetWallClock_spec (W : World) (name : string) (s : State) :
  wallclocksRWLock s = Sync.unlocked →
  ∃ s',
    wallclocksRWLock s' = Sync.unlocked ∧
    match wallclocks s !! name with
    | Some wc =>
        GetWallClock W name s = (Ret (Some wc, None), s') ∧
        s' = print (CHECK "get wallclock ok" name) s
    | None =>
        match Open W (open_time s) "postgres" (target W name s) with
        | Some e =>
            GetWallClock W name s =
              (Ret (None, Some (errors_New "cannot create wall clock")), s') ∧
            wallclocks s' = wallclocks s ∧
            dbs s' = dbs s
        | None =>
            wallclocks s' = <[name := length (heap s)]> (wallclocks s) ∧
            heap s' = (heap s ++ [WallClock.mk (Some (dbs s)) name (target W name s)])%list ∧
            dbs s' = S (dbs s) ∧
            match Ping W (S (open_time s)) (dbs s) with
            | Some e =>
                GetWallClock W name s =
                  (Ret (None, Some (errors_New "cannot create wall clock")), s')
            | None =>
                GetWallClock W name s = (Ret (Some (length (heap s)), None), s')
            end
        end
    end.
Proof.
  intros Hfree. rewrite GetWallClock_unfold, (get_spec W name s Hfree).
  destruct (wallclocks s !! name) as [wc|].
  - eexists. split; [| split; reflexivity]. done.
  - destruct (add_spec W name s Hfree) as (s' & Hlk & _ & H). exists s'.
    split; [done |].
    destruct (Open W (open_time s) "postgres" (target W name s)) as [e|].
    + destruct H as (-> & Hm & _ & Hd & _). done.
    + destruct H as (Hm & Hh & Hd & _ & H). repeat (split; [done |]).
      destruct (Ping W (S (open_time s)) (dbs s)) as [e|]; by rewrite H.
Qed.

(** Between calls the mutex is free: every function of the package that
    is entered with the mutex free leaves it free, however it ends. *)
Global Instance mutex_kept_preorder : PreOrder mutex_kept.
Proof.
  split.
  - by intros s.
  - intros s1 s2 s3 H12 H23. unfold mutex_kept in *. congruence.
Qed.

Lemma mutex_free_after_call (W : World) (c : call) (s : State) :
  wallclocksRWLock s = Sync.unlocked →
  wallclocksRWLock (exec W c s) = Sync.unlocked.
Proof.
  intros Hfree. destruct c as [name | wc | name | name | name | | db | db]; simpl.
  - destruct (GetWallClock_spec W name s Hfree) as (s' & Hfree' & H).
    destruct (wallclocks s !! name); [by destruct H as [-> ->] |].
    destruct (Open W _ _ _); [by destruct H as [-> _] |].
    destruct H as (_ & _ & _ & H). by destruct (Ping W _ _); rewrite H.
  - rewrite <- Hfree. by apply (keeps_NewTSN mutex_kept).
  - rewrite (get_spec W name s Hfree).
    destruct (wallclocks s !! name); [done |].
    destruct (add_spec W name s Hfree) as (s' & Hfree' & _ & H).
    destruct (Open W _ _ _); [by destruct H as [-> _] |].
    destruct H as (_ & _ & _ & _ & H). by destruct (Ping W _ _); rewrite H.
  - destruct (add_spec W name s Hfree) as (s' & Hfree' & _ & H).
    destruct (Open W _ _ _); [by destruct H as [-> _] |].
    destruct H as (_ & _ & _ & _ & H). by destruct (Ping W _ _); rewrite H.
  - rewrite <- Hfree. by apply (keeps_dbname mutex_kept).
  - rewrite <- Hfree. by apply (keeps_getDbTemplate mutex_kept).
  - rewrite <- Hfree. by apply (keeps_ping mutex_kept).
  - rewrite <- Hfree. by apply (keeps_newTSN mutex_kept).
Qed.

Lemma mutex_free_after_calls (W : World) (cs : list call) (s : State) :
  wallclocksRWLock s = Sync.unlocked →
  wallclocksRWLock (execs W cs s) = Sync.unlocked.
Proof.
  revert s. induction cs as [|c cs IH]; intros s Hfree; simpl; [done |].
  by apply IH, mutex_free_after_call.
Qed.

(** So after any sequence of calls since the start of the process,
    [GetWallClock] returns. *)
Lemma GetWallClock_returns_after_calls (W W' : World) (cs : list call)
    (name : string) :
  ∃ r s', GetWallClock W' name (execs W cs init) = (Ret r, s').
Proof.
  assert (wallclocksRWLock (execs W cs init) = Sync.unlocked) as Hfree
    by by apply mutex_free_after_calls.
  destruct (GetWallClock_spec W' name _ Hfree) as (s' & _ & H).
  destruct (wallclocks _ !! name); [destruct H as [-> _]; eauto |].
  destruct (Open W' _ _ _); [destruct H as [-> _]; eauto |].
  destruct H as (_ & _ & _ & H). destruct (Ping W' _ _); rewrite H; eauto.
Qed.

(** ** The boundary of [GetWallClock] *)

(** C3: called with the mutex free, [GetWallClock] returns a handle and
    an error; it does not panic, block or die.  When [get] returns, the
    result is its handle with a nil error.  When [get] panics, with
    whatever value, the result is a nil handle and the error
    [cannot create wall clock]: so it is for every error [e] with which
    [sql.Open] or [Ping] can fail for a name not yet in the map, and [e]
    is not part of the result.  No other error is ever returned. *)
Theorem GetWallClock_contains_panics (W : World) (name : string) (s : State) :
  wallclocksRWLock s = Sync.unlocked →
  ∃ wc err s',
    GetWallClock W name s = (Ret (wc, err), s') ∧
    (∀ h s'', get W name s = (Ret h, s'') → wc = h ∧ err = None ∧ s' = s'') ∧
    (∀ v s'', get W name s = (Panic v, s'') →
       wc = None ∧ err = Some (errors_New "cannot create wall clock") ∧ s' = s'') ∧
    (∀ e, wallclocks s !! name = None →
       Open W (open_time s) "postgres" (target W name s) = Some e ∨
       (Open W (open_time s) "postgres" (target W name s) = None ∧
        Ping W (S (open_time s)) (dbs s) = Some e) →
       wc = None ∧ err = Some (errors_New "cannot create wall clock")) ∧
    (err = None ∨ err = Some (errors_New "cannot create wall clock")).
Proof.
  intros Hfree.
  destruct (GetWallClock_spec W name s Hfree) as (s' & _ & H).
  pose proof (GetWallClock_unfold W name s) as Hun.
  destruct (wallclocks s !! name) as [h|].
  { destruct H as [HG ->]. rewrite HG in Hun.
    exists (Some h), None, (print (CHECK "get wallclock ok" name) s).
    split; [done |].
    destruct (get W name s) as [[h' | v | | msg] s'']; simplify_eq.
    split_and!; try done; [by intros ?? [= -> ->] | auto]. }
  destruct (Open W (open_time s) "postgres" (target W name s)) as [e|].
  { destruct H as (HG & _). rewrite HG in Hun.
    exists None, (Some (errors_New "cannot create wall clock")), s'.
    split; [done |].
    destruct (get W name s) as [[h' | v | | msg] s'']; simplify_eq.
    split_and!; try done; [by intros ?? [= -> ->] | auto]. }
  destruct H as (_ & _ & _ & H).
  destruct (Ping W (S (open_time s)) (dbs s)) as [e|]; rewrite H in Hun.
  - exists None, (Some (errors_New "cannot create wall clock")), s'.
    split; [done |].
    destruct (get W name s) as [[h' | v | | msg] s'']; simplify_eq.
    split_and!; try done; [by intros ?? [= -> ->] | auto].
  - exists (Some (length (heap s))), None, s'.
    split; [done |].
    destruct (get W name s) as [[h' | v | | msg] s'']; simplify_eq.
    split_and!; try done; [by intros ?? [= -> ->] | | auto].
    intros e _ [He | [_ He]]; done.
Qed.

Lemma GetWallClock_contains_panics_witness :
  wallclocksRWLock init = Sync.unlocked ∧
  ∃ wc err s',
    GetWallClock W_down "rainer" init = (Ret (wc, err), s') ∧
    (∀ h s'', get W_down "rainer" init = (Ret h, s'') →
       wc = h ∧ err = None ∧ s' = s'') ∧
    (∀ v s'', get W_down "rainer" init = (Panic v, s'') →
       wc = None ∧ err = Some (errors_New "cannot create wall clock") ∧ s' = s'') ∧
    (∀ e, wallclocks init !! "rainer" = None →
       Open W_down (open_time init) "postgres" (target W_down "rainer" init) = Some e ∨
       (Open W_down (open_time init) "postgres" (target W_down "rainer" init) = None ∧
        Ping W_down (S (open_time init)) (dbs init) = Some e) →
       wc = None ∧ err = Some (errors_New "cannot create wall clock")) ∧
    (err = None ∨ err = Some (errors_New "cannot create wall clock")).
Proof.
  split; [reflexivity |].
  apply (GetWallClock_contains_panics W_down "rainer" init). reflexivity.
Defined.

(** In [W_down] the body does panic, and the caller sees the generic
    error. *)
Example GetWallClock_W_down :
  (get W_down "rainer" init).1
    = Panic (PanicError "dial tcp 127.0.0.1:5432: connect: connection refused") ∧
  (GetWallClock W_down "rainer" init).1
    = Ret (None, Some "cannot create wall clock").
Proof. split; reflexivity. Qed.

(** C8: [GetWallClock] does not look at the name.  For every name, the
    empty one included, and with the mutex free: a name in the map
    yields its handle; a name not in the map is passed to [dbname] and
    the target to [sql.Open], and when [sql.Open] and [Ping] accept, a
    handle carrying that name is returned with a nil error; an error is
    returned only when the name is absent and [sql.Open] or [Ping]
    refused. *)
Theorem GetWallClock_does_not_validate_name (W : World) (name : string)
    (s : State) :
  wallclocksRWLock s = Sync.unlocked →
  ∃ wc err s',
    GetWallClock W name s = (Ret (wc, err), s') ∧
    (∀ h, wallclocks s !! name = Some h → wc = Some h ∧ err = None) ∧
    (wallclocks s !! name = None →
     Open W (open_time s) "postgres" (target W name s) = None →
     Ping W (S (open_time s)) (dbs s) = None →
     wc = Some (length (heap s)) ∧ err = None ∧
     wallclocks s' !! name = Some (length (heap s)) ∧
     heap s' !! length (heap s)
       = Some (WallClock.mk (Some (dbs s)) name (target W name s))) ∧
    (err ≠ None →
     wallclocks s !! name = None ∧
     (Open W (open_time s) "postgres" (target W name s) ≠ None ∨
      Ping W (S (open_time s)) (dbs s) ≠ None)).
Proof.
  intros Hfree.
  destruct (GetWallClock_spec W name s Hfree) as (s' & _ & H).
  destruct (wallclocks s !! name) as [h|].
  { destruct H as [-> ->]. eexists _, _, _. split; [reflexivity |].
    split_and!; try done. }
  destruct (Open W (open_time s) "postgres" (target W name s)) as [e|].
  { destruct H as (-> & _). eexists _, _, _. split; [reflexivity |].
    split_and!; try done. intros _. split; [done |]. by left. }
  destruct H as (Hm & Hh & _ & H).
  destruct (Ping W (S (open_time s)) (dbs s)) as [e|]; rewrite H;
    eexists _, _, _; (split; [reflexivity |]); split_and!; try done.
  - intros _. split; [done |]. by right.
  - intros _ _ _. split_and!; try done.
    + rewrite Hm. apply lookup_insert_eq.
    + rewrite Hh. by apply list_lookup_middle.
Qed.

Lemma GetWallClock_does_not_validate_name_witness :
  wallclocksRWLock init = Sync.unlocked ∧
  ∃ wc err s',
    GetWallClock W_up "" init = (Ret (wc, err), s') ∧
    (∀ h, wallclocks init !! "" = Some h → wc = Some h ∧ err = None) ∧
    (wallclocks init !! "" = None →
     Open W_up (open_time init) "postgres" (target W_up "" init) = None →
     Ping W_up (S (open_time init)) (dbs init) = None →
     wc = Some (length (heap init)) ∧ err = None ∧
     wallclocks s' !! "" = Some (length (heap init)) ∧
     heap s' !! length (heap init)
       = Some (WallClock.mk (Some (dbs init)) "" (target W_up "" init))) ∧
    (err ≠ None →
     wallclocks init !! "" = None ∧
     (Open W_up (open_time init) "postgres" (target W_up "" init) ≠ None ∨
      Ping W_up (S (open_time init)) (dbs init) ≠ None)).
Proof.
  split; [reflexivity |].
  apply (GetWallClock_does_not_validate_name W_up "" init). reflexivity.
Defined.

(** The empty name is a clock like any other. *)
Example GetWallClock_empty_name :
  (GetWallClock W_up "" init).1 = Ret (Some 0, None) ∧
  heap (GetWallClock W_up "" init).2
    = [WallClock.mk (Some 0) "" "host=localhost dbname= sslmode=disable"].
Proof. split; reflexivity. Qed.

(** ** The second call *)

(** [get] when no writer holds the mutex: the read lock is taken and
    given back, whoever else is reading. *)
Lemma get_no_writer (W : World) (name : string) (s : State) :
  Sync.writer (wallclocksRWLock s) = false →
  get W name s =
    match wallclocks s !! name with
    | Some wc => (Ret (Some wc), print (CHECK "get wallclock ok" name) s)
    | None => add W name s
    end.
Proof.
  intros Hw. destruct s as [m [r w] t h d n o]. simpl in Hw. subst w.
  unfold get, bind, RWMutex.RLock, RWMutex.RUnlock, get_lookup, gets. simpl.
  by destruct (m !! name).
Qed.

Lemma get_writer (W : World) (name : string) (s : State) :
  Sync.writer (wallclocksRWLock s) = true → get W name s = (Blocked, s).
Proof.
  intros Hw. unfold get, bind, RWMutex.RLock. by rewrite Hw.
Qed.

(** [add] returns only if it got the write lock, and then it has stored
    the handle it returns and released the lock. *)
Lemma add_returns (W : World) (name : string) (s : State) (wc : option loc)
    (s' : State) :
  add W name s = (Ret wc, s') →
  ∃ l, wc = Some l ∧ wallclocks s' !! name = Some l ∧
       Sync.writer (wallclocksRWLock s') = false.
Proof.
  destruct (add_open_spec W name s) as (s1 & Hm & Hlk & _ & _ & H).
  unfold add, bind.
  destruct (Open W (open_time s) "postgres" (target W name s)) as [e|];
    destruct H as (-> & _); [done |].
  unfold RWMutex.Lock.
  destruct (Sync.writer (wallclocksRWLock s1)); [done |].
  destruct (Sync.readers (wallclocksRWLock s1)); [| done].
  simpl. unfold ping, bind, DB_Ping. simpl.
  destruct (Ping W (now s1) (dbs s)) as [e|]; simpl; [done |].
  intros [= <- <-]. eexists. split; [done |]. simpl.
  split; [apply lookup_insert_eq | done].
Qed.

Lemma GetWallClock_returns_handle (W : World) (name : string) (s : State)
    (wc : loc) (s' : State) :
  GetWallClock W name s = (Ret (Some wc, None), s') →
  wallclocks s' !! name = Some wc ∧ Sync.writer (wallclocksRWLock s') = false.
Proof.
  rewrite GetWallClock_unfold.
  destruct (Sync.writer (wallclocksRWLock s)) eqn:Hw.
  { by rewrite (get_writer W name s Hw). }
  rewrite (get_no_writer W name s Hw).
  destruct (wallclocks s !! name) as [h|] eqn:Hname.
  - by intros [= -> <-].
  - destruct (add W name s) as [[h | v | | msg] s1] eqn:Hadd; try done.
    intros [= -> ->].
    by destruct (add_returns W name s _ _ Hadd) as (l & [= ->] & ? & ?).
Qed.



(** The second call made no connection and no call to the outside. *)
Example GetWallClock_twice_counts :
  dbs s_rainer = 1 ∧ dbs (GetWallClock W_up "rainer" s_rainer).2 = 1 ∧
  now (GetWallClock W_up "rainer" s_rainer).2 = now s_rainer.
Proof. split; [| split]; vm_compute; reflexivity. Qed.

(** ** One goroutine alone is the sequential program *)

Lemma solo_Done (W : World) (n : nat) (wc : option loc) (err : option error)
    (s : State) :
  Sched.solo W n (Sched.Done wc err) s = (Sched.Done wc err, s).
Proof. induction n as [|n IH]; simpl; [done | exact IH]. Qed.

Lemma solo_S (W : World) (n : nat) (p : Sched.pc) (s : State) :
  Sched.solo W (S n) p s = Sched.solo W n (Sched.step W p s).1 (Sched.step W p s).2.
Proof. simpl. by destruct (Sched.step W p s). Qed.

Local Arguments Sched.solo : simpl never.
Local Arguments add_open : simpl never.

(** Whatever [GetWallClock] returns, a goroutine that runs alone from the
    entry of [get] has returned the same after eight steps, in the same
    state. *)
Lemma solo_GetWallClock (W : World) (name : string) (s : State)
    (r : option loc * option error) (s' : State) :
  GetWallClock W name s = (Ret r, s') →
  Sched.solo W 8 (Sched.AtRLock name) s = (Sched.Done r.1 r.2, s').
Proof.
  rewrite GetWallClock_unfold.
  destruct (Sync.writer (wallclocksRWLock s)) eqn:Hw.
  { by rewrite (get_writer W name s Hw). }
  rewrite (get_no_writer W name s Hw).
  destruct s as [m [rd w] t h d n o]. simpl in Hw. subst w.
  do 3 (rewrite solo_S; unfold Sched.step at 1 2; simpl).
  unfold set_wallclocksRWLock. simpl.
  set (s0 := mkState m _ t h d n o).
  destruct (m !! name) as [wc|].
  { rewrite solo_S. unfold Sched.step. simpl.
    intros [= <- <-]. by rewrite solo_Done. }
  destruct (add_open_spec W name s0) as (s1 & Hm & Hlk & _ & Hn & H).
  rewrite solo_S. unfold add, Sched.step at 1 2, Sched.action, bind.
  destruct (Open W (open_time s0) "postgres" (target W name s0)) as [e|];
    destruct H as (-> & _).
  { intros [= <- <-]. simpl. by rewrite solo_Done. }
  cbv iota beta. simpl fst. simpl snd.
  rewrite solo_S. unfold Sched.step at 1 2, Sched.action, bind, RWMutex.Lock.
  rewrite Hlk. simpl Sync.writer. simpl Sync.readers. cbv iota beta.
  destruct rd as [|rd]; [| done]. cbv iota beta. simpl fst. simpl snd.
  do 2 (rewrite solo_S; unfold Sched.step at 1 2; simpl).
  rewrite solo_S. unfold Sched.step, Sched.action, ping, bind, DB_Ping.
  simpl now.
  destruct (Ping W (now s1) d) as [e|];
    unfold checkErr, bind, modify, panic, ret, Sched.solo; simpl;
    by intros [= <- <-].
Qed.

(** ** Publication and the liveness probe *)

(** When [sql.Open] fails, [GetWallClock] reports the error and the map
    is as it was. *)
Lemma open_failure_leaves_registry (W : World) (name : string) (s : State)
    (e : error) :
  wallclocksRWLock s = Sync.unlocked →
  wallclocks s !! name = None →
  Open W (open_time s) "postgres" (target W name s) = Some e →
  ∃ s',
    GetWallClock W name s
    = (Ret (None, Some (errors_New "cannot create wall clock")), s') ∧
    wallclocks s' = wallclocks s.
Proof.
  intros Hfree Hname Hopen.
  destruct (GetWallClock_spec W name s Hfree) as (s' & _ & H).
  rewrite Hname, Hopen in H. destruct H as (HG & Hm & _). by exists s'.
Qed.

(** When [Ping] fails, [GetWallClock] reports the error as well, but
    [add] had stored the handle before it called [ping]: the name is in
    the map, and the next call, in whatever world, returns the handle
    with a nil error and probes nothing. *)
Lemma ping_failure_leaves_entry (W W' : World) (name : string) (s : State)
    (e : error) :
  wallclocksRWLock s = Sync.unlocked →
  wallclocks s !! name = None →
  Open W (open_time s) "postgres" (target W name s) = None →
  Ping W (S (open_time s)) (dbs s) = Some e →
  ∃ s',
    GetWallClock W name s
    = (Ret (None, Some (errors_New "cannot create wall clock")), s') ∧
    wallclocks s' !! name = Some (length (heap s)) ∧
    GetWallClock W' name s'
    = (Ret (Some (length (heap s)), None),
       print (CHECK "get wallclock ok" name) s').
Proof.
  intros Hfree Hname Hopen Hping.
  destruct (GetWallClock_spec W name s Hfree) as (s' & Hfree' & H).
  rewrite Hname, Hopen, Hping in H. destruct H as (Hm & _ & _ & HG).
  exists s'. split; [done |].
  split; [rewrite Hm; apply lookup_insert_eq |].
  rewrite GetWallClock_unfold, (get_spec W' name s' Hfree').
  by rewrite Hm, lookup_insert_eq.
Qed.

(** C1, where the code departs from it: in [W_down] the database does
    not answer.  [GetWallClock("rainer")] on the initial state returns
    the error [cannot create wall clock]; yet the name, absent before,
    is now in the map, bound to the handle whose probe failed; and the
    next call returns that handle with a nil error, without a new
    connection and without a probe.  And in [W_up], while a first
    goroutine stands before its [ping] (seven steps in), a second one
    already gets the handle from the map. *)
Theorem failed_probe_leaves_entry :
  let r1 := GetWallClock W_down "rainer" init in
  let r2 := GetWallClock W_down "rainer" r1.2 in
  r1.1 = Ret (None, Some (errors_New "cannot create wall clock")) ∧
  wallclocks init !! "rainer" = None ∧
  wallclocks r1.2 !! "rainer" = Some 0 ∧
  r2.1 = Ret (Some 0, None) ∧
  dbs r2.2 = dbs r1.2 ∧
  now r2.2 = now r1.2 ∧
  (Sched.run W_up [0; 0; 0; 0; 0; 0; 0; 1; 1; 1; 1]
     ([Sched.AtRLock "rainer"; Sched.AtRLock "rainer"], init)).1
  = [Sched.AtPing 0 (Some 0); Sched.Done (Some 0) None].
Proof. split_and!; vm_compute; reflexivity. Qed.

(** ** Two first calls at once *)

(** C2, where the code departs from it: two goroutines call
    [GetWallClock("x")] for the first time, everything outside works,
    and each looks the name up before the other stores.  Both return
    without error, but with different handles, on two connections; the
    map ends with the second handle, the first connection is neither in
    the map nor closed (the package has no call that closes one). *)
Theorem racing_first_calls_construct_twice :
  let c := Sched.run W_up race ([Sched.AtRLock "x"; Sched.AtRLock "x"], init) in
  c.1 = [Sched.Done (Some 0) None; Sched.Done (Some 1) None] ∧
  heap c.2 = [WallClock.mk (Some 0) "x" "host=localhost dbname=x sslmode=disable";
              WallClock.mk (Some 1) "x" "host=localhost dbname=x sslmode=disable"] ∧
  dbs c.2 = 2 ∧
  wallclocks c.2 !! "x" = Some 1 ∧
  wallclocksRWLock c.2 = Sync.unlocked.
Proof. split_and!; vm_compute; reflexivity. Qed.

(** * Further properties of the package *)

(** ** What a call leaves alone *)

Global Instance core_kept_preorder : PreOrder core_kept.
Proof.
  split.
  - by intros s.
  - intros s1 s2 s3 (? & ? & ? & ? & ?) (? & ? & ? & ? & ?).
    unfold core_kept. split_and!; congruence.
Qed.

Lemma core_kept_tick (s : State) : core_kept s (tick s).
Proof. by unfold core_kept. Qed.

Lemma core_kept_print (l : line) (s : State) : core_kept s (print l s).
Proof. by unfold core_kept. Qed.

Lemma NewTSN_core_kept (W : World) (wc : option loc) (s : State) :
  core_kept s (NewTSN W wc s).2.
Proof.
  apply (keeps_NewTSN core_kept); [apply core_kept_tick | apply core_kept_print].
Qed.

(** X1: [NewTSN], on any handle and in any world, leaves the map, the
    mutex, the template, the heap and the count of connections as they
    were, and makes at most one call to the outside. *)
Theorem NewTSN_touches_nothing (W : World) (wc : option loc) (s : State) :
  let s' := (NewTSN W wc s).2 in
  wallclocks s' = wallclocks s ∧
  wallclocksRWLock s' = wallclocksRWLock s ∧
  dbTemplate s' = dbTemplate s ∧
  heap s' = heap s ∧
  dbs s' = dbs s ∧
  (now s ≤ now s' ≤ S (now s))%nat.
Proof.
  intros s'. pose proof (NewTSN_core_kept W wc s) as (? & ? & ? & ? & ?).
  split_and!; try done; subst s'; rewrite NewTSN_unfold;
    destruct (wc ≫= _) as [w|]; simpl; try lia;
    destruct (WallClock.db w); simpl; try lia;
    destruct (QueryRow W _ _ _); simpl; lia.
Qed.

(** ** Bindings are permanent *)

Lemma GetWallClock_extends (W : World) (name : string) (s : State) :
  wallclocksRWLock s = Sync.unlocked →
  wallclocks s ⊆ wallclocks (GetWallClock W name s).2.
Proof.
  intros Hfree. destruct (GetWallClock_spec W name s Hfree) as (s' & _ & H).
  destruct (wallclocks s !! name) as [wc|] eqn:Hname.
  { by destruct H as [-> ->]. }
  destruct (Open W _ _ _).
  { destruct H as (-> & Hm & _). simpl. by rewrite Hm. }
  destruct H as (Hm & _ & _ & H).
  assert ((GetWallClock W name s).2 = s') as ->
    by (by destruct (Ping W _ _); rewrite H).
  rewrite Hm. by apply insert_subseteq.
Qed.

Lemma exported_extends (W : World) (c : call) (s : State) :
  exported c = true →
  wallclocksRWLock s = Sync.unlocked →
  wallclocks s ⊆ wallclocks (exec W c s).
Proof.
  intros Hc Hfree. destruct c; try done; simpl.
  - by apply GetWallClock_extends.
  - by destruct (NewTSN_core_kept W wc s) as (-> & _).
Qed.

(** X2: under calls of the two exported functions, made one after the
    other from a state with the mutex free, a binding of the map is
    never changed: a name bound to a handle stays bound to that handle. *)
Theorem bindings_are_permanent (W : World) (cs : list call) (s : State)
    (name : string) (wc : loc) :
  forallb exported cs = true →
  wallclocksRWLock s = Sync.unlocked →
  wallclocks s !! name = Some wc →
  wallclocks (execs W cs s) !! name = Some wc.
Proof.
  revert s. induction cs as [|c cs IH]; intros s Hcs Hfree Hname; [done |].
  simpl in Hcs. apply andb_prop in Hcs as [Hc Hcs]. simpl.
  apply IH; [done | by apply mutex_free_after_call |].
  by apply (lookup_weaken _ _ _ _ Hname), exported_extends.
Qed.

Lemma bindings_are_permanent_witness :
  forallb exported [CallGetWallClock "b"; CallNewTSN (Some 0);
                    CallGetWallClock "rainer"] = true ∧
  wallclocksRWLock s_rainer = Sync.unlocked ∧
  wallclocks s_rainer !! "rainer" = Some 0 ∧
  wallclocks (execs W_down [CallGetWallClock "b"; CallNewTSN (Some 0);
                            CallGetWallClock "rainer"] s_rainer) !! "rainer"
  = Some 0.
Proof.
  split; [reflexivity |]. split; [reflexivity |].
  split; [vm_compute; reflexivity |].
  apply (bindings_are_permanent W_down _ s_rainer "rainer" 0).
  - reflexivity.
  - reflexivity.
  - vm_compute. reflexivity.
Defined.

(** ** The registry stays in order *)

Lemma registry_ok_init : registry_ok init.
Proof.
  split; simpl; try done.
Qed.

Global Instance registry_kept_preorder : PreOrder registry_kept.
Proof.
  split.
  - by intros s.
  - intros s1 s2 s3 (? & ? & ? & ?) (? & ? & ? & ?).
    unfold registry_kept. split_and!; congruence.
Qed.

Lemma registry_ok_kept (s s' : State) :
  registry_kept s s' → registry_ok s → registry_ok s'.
Proof.
  intros (Hm & Hl & Hh & Hd) [H1 H2 H3 H4].
  split; rewrite ?Hm, ?Hl, ?Hh, ?Hd; done.
Qed.

Local Ltac registry_kept_same := intros; by unfold registry_kept.

(** A failed construction leaves a struct without connection behind. *)
Lemma registry_ok_garbage (s s' : State) (w : WallClock.t) :
  registry_ok s →
  wallclocksRWLock s' = Sync.unlocked →
  wallclocks s' = wallclocks s →
  dbs s' = dbs s →
  heap s' = (heap s ++ [w])%list →
  WallClock.db w = None →
  registry_ok s'.
Proof.
  intros [H1 H2 H3 H4] Hl Hm Hd Hh Hw.
  split; rewrite ?Hm, ?Hh, ?Hd; try done.
  - intros name l Hname. destruct (H2 name l Hname) as (c & dn & Hl').
    exists c, dn. by apply lookup_app_l_Some.
  - intros l w' c [[_ Hl']|[_ <-]]%lookup_snoc_Some Hc; [eauto | congruence].
  - intros l l' w1 w2 c [[_ Hl1]|[_ <-]]%lookup_snoc_Some
      [[_ Hl2]|[_ <-]]%lookup_snoc_Some Hc1 Hc2; [eauto | congruence..].
Qed.

(** A construction that got its connection stores a struct with the
    next connection under the name. *)
Lemma registry_ok_stored (s s' : State) (name dn : string) :
  registry_ok s →
  wallclocksRWLock s' = Sync.unlocked →
  wallclocks s' = <[name := length (heap s)]> (wallclocks s) →
  dbs s' = S (dbs s) →
  heap s' = (heap s ++ [WallClock.mk (Some (dbs s)) name dn])%list →
  registry_ok s'.
Proof.
  intros [H1 H2 H3 H4] Hl Hm Hd Hh.
  split; rewrite ?Hm, ?Hh, ?Hd; try done.
  - intros name' l. rewrite lookup_insert. case_decide as Hn.
    + intros [= <-]. subst name'. exists (dbs s), dn. by apply list_lookup_middle.
    + intros Hname. destruct (H2 name' l Hname) as (c & dn' & Hl').
      exists c, dn'. by apply lookup_app_l_Some.
  - intros l w' c [[_ Hl']|[_ <-]]%lookup_snoc_Some Hc.
    + apply (H3 _ _ _ Hl') in Hc. lia.
    + simpl in Hc. injection Hc as <-. lia.
  - intros l l' w1 w2 c [[_ Hl1]|[-> <-]]%lookup_snoc_Some
      [[_ Hl2]|[-> <-]]%lookup_snoc_Some Hc1 Hc2; simpl in *.
    + eauto.
    + injection Hc2 as <-. apply (H3 _ _ _ Hl1) in Hc1. lia.
    + injection Hc1 as <-. apply (H3 _ _ _ Hl2) in Hc2. lia.
    + done.
Qed.

Lemma add_registry_ok (W : World) (name : string) (s : State) :
  registry_ok s → registry_ok (add W name s).2.
Proof.
  intros Hok. pose proof (ok_mutex s Hok) as Hfree.
  destruct (add_spec W name s Hfree) as (s' & Hfree' & _ & H).
  destruct (Open W _ _ _).
  - destruct H as (-> & Hm & Hh & Hd & _). simpl.
    by apply (registry_ok_garbage s s' _ Hok Hfree' Hm Hd Hh).
  - destruct H as (Hm & Hh & Hd & _ & H).
    assert ((add W name s).2 = s') as ->
      by (by destruct (Ping W _ _); rewrite H).
    by apply (registry_ok_stored s s' name _ Hok Hfree' Hm Hd Hh).
Qed.

Lemma get_registry_ok (W : World) (name : string) (s : State) :
  registry_ok s → registry_ok (get W name s).2.
Proof.
  intros Hok. rewrite (get_spec W name s (ok_mutex s Hok)).
  destruct (wallclocks s !! name); [| by apply add_registry_ok].
  simpl. by apply (registry_ok_kept s).
Qed.

Lemma GetWallClock_state (W : World) (name : string) (s : State) :
  (GetWallClock W name s).2 = (get W name s).2.
Proof.
  rewrite GetWallClock_unfold.
  by destruct (get W name s) as [[wc | v | | msg] s'].
Qed.

Lemma exec_registry_ok (W : World) (c : call) (s : State) :
  registry_ok s → registry_ok (exec W c s).
Proof.
  intros Hok. destruct c as [name | wc | name | name | name | | db | db]; simpl.
  - rewrite GetWallClock_state. by apply get_registry_ok.
  - apply (registry_ok_kept s); [| done].
    apply (keeps_NewTSN registry_kept); registry_kept_same.
  - by apply get_registry_ok.
  - by apply add_registry_ok.
  - apply (registry_ok_kept s); [| done].
    apply (keeps_dbname registry_kept); registry_kept_same.
  - apply (registry_ok_kept s); [| done].
    apply (keeps_getDbTemplate registry_kept); registry_kept_same.
  - apply (registry_ok_kept s); [| done].
    apply (keeps_ping registry_kept); registry_kept_same.
  - apply (registry_ok_kept s); [| done].
    apply (keeps_newTSN registry_kept); registry_kept_same.
Qed.

Lemma execs_registry_ok (W : World) (cs : list call) (s : State) :
  registry_ok s → registry_ok (execs W cs s).
Proof.
  revert s. induction cs as [|c cs IH]; intros s Hok; simpl; [done |].
  by apply IH, exec_registry_ok.
Qed.

(** X3: after any sequence of calls since the start of the process,
    every name in the map is bound to a struct in the heap that carries
    this very name and a connection that is not nil, and the mutex is
    free. *)
Theorem registered_handles_are_complete (W : World) (cs : list call)
    (name : string) (l : loc) :
  let s := execs W cs init in
  wallclocks s !! name = Some l →
  wallclocksRWLock s = Sync.unlocked ∧
  ∃ c dn, heap s !! l = Some (WallClock.mk (Some c) name dn) ∧ (c < dbs s)%nat.
Proof.
  intros s Hname.
  pose proof (execs_registry_ok W cs init registry_ok_init) as Hok.
  fold s in Hok. split; [apply Hok |].
  destruct (ok_handle s Hok name l Hname) as (c & dn & Hl).
  exists c, dn. split; [done |]. by apply (ok_conn s Hok l _ c Hl).
Qed.

Lemma registered_handles_are_complete_witness :
  wallclocks (execs W_up [CallGetWallClock "a"; CallGetWallClock "b"] init) !! "b"
  = Some 1 ∧
  wallclocksRWLock (execs W_up [CallGetWallClock "a"; CallGetWallClock "b"] init)
  = Sync.unlocked ∧
  ∃ c dn,
    heap (execs W_up [CallGetWallClock "a"; CallGetWallClock "b"] init) !! 1
    = Some (WallClock.mk (Some c) "b" dn) ∧
    (c < dbs (execs W_up [CallGetWallClock "a"; CallGetWallClock "b"] init))%nat.
Proof.
  split; [vm_compute; reflexivity |].
  apply (registered_handles_are_complete W_up
           [CallGetWallClock "a"; CallGetWallClock "b"] "b" 1).
  vm_compute. reflexivity.
Defined.

(** X4: after any sequence of calls since the start of the process, two
    different names in the map are bound to different handles, and the
    two handles have different connections. *)
Theorem different_names_different_connections (W : World) (cs : list call)
    (name1 name2 : string) (l1 l2 : loc) :
  let s := execs W cs init in
  wallclocks s !! name1 = Some l1 →
  wallclocks s !! name2 = Some l2 →
  name1 ≠ name2 →
  l1 ≠ l2 ∧
  ∃ c1 c2 dn1 dn2,
    heap s !! l1 = Some (WallClock.mk (Some c1) name1 dn1) ∧
    heap s !! l2 = Some (WallClock.mk (Some c2) name2 dn2) ∧
    c1 ≠ c2.
Proof.
  intros s H1 H2 Hne.
  pose proof (execs_registry_ok W cs init registry_ok_init) as Hok.
  fold s in Hok.
  destruct (ok_handle s Hok name1 l1 H1) as (c1 & dn1 & Hl1).
  destruct (ok_handle s Hok name2 l2 H2) as (c2 & dn2 & Hl2).
  assert (l1 ≠ l2) as Hl by (intros ->; congruence).
  split; [done |]. exists c1, c2, dn1, dn2. split_and!; try done.
  intros ->. apply Hl. by apply (ok_conn_inj s Hok l1 l2 _ _ c2 Hl1 Hl2).
Qed.

Lemma different_names_different_connections_witness :
  wallclocks (execs W_up [CallGetWallClock "a"; CallGetWallClock "b"] init) !! "a"
  = Some 0 ∧
  wallclocks (execs W_up [CallGetWallClock "a"; CallGetWallClock "b"] init) !! "b"
  = Some 1 ∧
  "a" ≠ "b" ∧
  0 ≠ 1 ∧
  ∃ c1 c2 dn1 dn2,
    heap (execs W_up [CallGetWallClock "a"; CallGetWallClock "b"] init) !! 0
    = Some (WallClock.mk (Some c1) "a" dn1) ∧
    heap (execs W_up [CallGetWallClock "a"; CallGetWallClock "b"] init) !! 1
    = Some (WallClock.mk (Some c2) "b" dn2) ∧
    c1 ≠ c2.
Proof.
  split; [vm_compute; reflexivity |]. split; [vm_compute; reflexivity |].
  split; [done |].
  apply (different_names_different_connections W_up
           [CallGetWallClock "a"; CallGetWallClock "b"] "a" "b" 0 1).
  - vm_compute. reflexivity.
  - vm_compute. reflexivity.
  - done.
Defined.

(** ** Handles that [GetWallClock] returns *)

Lemma NewTSN_round_trip (W : World) (s : State) (l : loc) (w : WallClock.t)
    (c : conn) :
  heap s !! l = Some w →
  WallClock.db w = Some c →
  NewTSN W (Some l) s =
    match QueryRow W (now s) c "select clock.new_tsn()" with
    | RowInt64 v => (Ret (v, None), tick s)
    | RowQueryError e | RowUndecodable e =>
        (Ret (0%Z, Some (errors_New "error while reading TSN")),
         print (ERROR e) (tick s))
    | RowNone =>
        (Ret (0%Z, Some (errors_New "error while reading TSN")),
         print (ERROR sql_ErrNoRows) (tick s))
    end.
Proof.
  intros Hl Hc. rewrite NewTSN_unfold. simpl. rewrite Hl. simpl. by rewrite Hc.
Qed.

(** X5: a handle that [GetWallClock] returns with a nil error, after
    whatever calls since the start of the process, points to a struct
    with the requested name and a connection; [NewTSN] on it therefore
    never takes the nil path: it makes its one round trip on that
    connection and returns the int64 the database answers. *)
Theorem returned_handle_is_usable (W W' W'' : World) (cs : list call)
    (name : string) (l : loc) (s1 : State) :
  GetWallClock W' name (execs W cs init) = (Ret (Some l, None), s1) →
  ∃ c dn,
    heap s1 !! l = Some (WallClock.mk (Some c) name dn) ∧
    now (NewTSN W'' (Some l) s1).2 = S (now s1) ∧
    ∀ v, QueryRow W'' (now s1) c "select clock.new_tsn()" = RowInt64 v →
         (NewTSN W'' (Some l) s1).1 = Ret (v, None).
Proof.
  intros HG.
  assert (registry_ok s1) as Hok.
  { replace s1 with (exec W' (CallGetWallClock name) (execs W cs init))
      by (simpl; by rewrite HG).
    apply exec_registry_ok, execs_registry_ok, registry_ok_init. }
  apply GetWallClock_returns_handle in HG as [Hname _].
  destruct (ok_handle s1 Hok name l Hname) as (c & dn & Hl).
  exists c, dn. split; [done |].
  rewrite (NewTSN_round_trip W'' s1 l _ c Hl eq_refl).
  split.
  - by destruct (QueryRow W'' _ _ _).
  - by intros v ->.
Qed.

Lemma returned_handle_is_usable_witness :
  GetWallClock W_up "b" (execs W_up [CallGetWallClock "a"] init)
  = (Ret (Some 1, None),
     (GetWallClock W_up "b" (execs W_up [CallGetWallClock "a"] init)).2) ∧
  ∃ c dn,
    heap (GetWallClock W_up "b" (execs W_up [CallGetWallClock "a"] init)).2 !! 1
    = Some (WallClock.mk (Some c) "b" dn) ∧
    now (NewTSN W_down (Some 1)
           (GetWallClock W_up "b" (execs W_up [CallGetWallClock "a"] init)).2).2
    = S (now (GetWallClock W_up "b" (execs W_up [CallGetWallClock "a"] init)).2) ∧
    ∀ v, QueryRow W_down
           (now (GetWallClock W_up "b" (execs W_up [CallGetWallClock "a"] init)).2)
           c "select clock.new_tsn()" = RowInt64 v →
         (NewTSN W_down (Some 1)
            (GetWallClock W_up "b" (execs W_up [CallGetWallClock "a"] init)).2).1
         = Ret (v, None).
Proof.
  split; [vm_compute; reflexivity |].
  apply (returned_handle_is_usable W_up W_up W_down [CallGetWallClock "a"] "b" 1).
  vm_compute. reflexivity.
Defined.

(** ** Issuing in a loop *)

Lemma iter_tick_now (n : nat) (s : State) :
  now (Nat.iter n tick s) = (now s + n)%nat.
Proof. induction n as [|n IH]; simpl; [lia | rewrite IH; lia]. Qed.

Lemma iter_tick_heap (n : nat) (s : State) :
  heap (Nat.iter n tick s) = heap s.
Proof. induction n as [|n IH]; simpl; [done | exact IH]. Qed.

Lemma TestNewTSN_loop_all_answered (W : World) (n : nat) (l : loc)
    (w : WallClock.t) (c : conn) (f : nat → Z) (z : Z) (s : State) :
  heap s !! l = Some w →
  WallClock.db w = Some c →
  (∀ k, (k < n)%nat →
        QueryRow W (now s + k) c "select clock.new_tsn()" = RowInt64 (f k)) →
  TestNewTSN_loop W n (Some l) z s
  = (Ret (inl (match n with 0 => z | S n' => f n' end)), Nat.iter n tick s).
Proof.
  revert f z s. induction n as [|n IH]; intros f z s Hl Hc Hf; [done |].
  simpl TestNewTSN_loop. unfold bind.
  rewrite (NewTSN_round_trip W s l w c Hl Hc).
  pose proof (Hf 0%nat ltac:(lia)) as H0. rewrite Nat.add_0_r in H0. rewrite H0.
  rewrite (IH (λ k, f (S k)) (f 0%nat) (tick s)); [| done | done |].
  - rewrite Nat.iter_succ_r. by destruct n.
  - intros k Hk. simpl. rewrite <- (Hf (S k)) by lia. f_equal. lia.
Qed.

(** X6: on a handle with a connection, a loop of [n + 1] calls of
    [NewTSN] whose round trips are all answered, the round trip at the
    [k]-th call with [f k], ends with the last answer [f n]; the calls
    made exactly [n + 1] round trips, one after the other, and changed
    nothing else.  (So the TSNs come back in the order the database
    gave them.) *)
Theorem TestNewTSN_loop_returns_last_answer (W : World) (n : nat) (l : loc)
    (w : WallClock.t) (c : conn) (f : nat → Z) (z : Z) (s : State) :
  heap s !! l = Some w →
  WallClock.db w = Some c →
  (∀ k, (k ≤ n)%nat →
        QueryRow W (now s + k) c "select clock.new_tsn()" = RowInt64 (f k)) →
  TestNewTSN_loop W (S n) (Some l) z s
  = (Ret (inl (f n)), Nat.iter (S n) tick s).
Proof.
  intros Hl Hc Hf.
  apply (TestNewTSN_loop_all_answered W (S n) l w c f z s Hl Hc).
  intros k Hk. apply Hf. lia.
Qed.

Lemma TestNewTSN_loop_returns_last_answer_witness :
  heap s_rainer !! 0
  = Some (WallClock.mk (Some 0) "rainer"
            "host=localhost dbname=rainer sslmode=disable") ∧
  TestNewTSN_loop W_up 100 (Some 0) 0 s_rainer
  = (Ret (inl (Z.of_nat (now s_rainer + 99))), Nat.iter 100 tick s_rainer).
Proof.
  split; [vm_compute; reflexivity |].
  apply (TestNewTSN_loop_returns_last_answer W_up 99 0
           (WallClock.mk (Some 0) "rainer"
              "host=localhost dbname=rainer sslmode=disable")
           0 (λ k, Z.of_nat (now s_rainer + k)) 0%Z s_rainer).
  - vm_compute. reflexivity.
  - reflexivity.
  - intros k _. reflexivity.
Defined.

(** X7: the loop stops at the first round trip that fails.  When the
    first [j] round trips are answered and the next one is not, the
    loop is left with the error [error while reading TSN] after exactly
    [j + 1] round trips, however many rounds were still to run: nothing
    is retried and nothing more is asked. *)
Theorem TestNewTSN_loop_stops_at_first_failure (W : World) (n j : nat)
    (l : loc) (w : WallClock.t) (c : conn) (z : Z) (s : State) :
  heap s !! l = Some w →
  WallClock.db w = Some c →
  (j < n)%nat →
  (∀ k, (k < j)%nat →
        ∃ v, QueryRow W (now s + k) c "select clock.new_tsn()" = RowInt64 v) →
  (∀ v, QueryRow W (now s + j) c "select clock.new_tsn()" ≠ RowInt64 v) →
  (TestNewTSN_loop W n (Some l) z s).1
  = Ret (inr (errors_New "error while reading TSN")) ∧
  now (TestNewTSN_loop W n (Some l) z s).2 = (now s + S j)%nat.
Proof.
  revert j z s. induction n as [|n IH]; intros j z s Hl Hc Hj Hok Hfail; [lia |].
  simpl TestNewTSN_loop. unfold bind.
  rewrite (NewTSN_round_trip W s l w c Hl Hc).
  destruct j as [|j].
  - rewrite Nat.add_0_r in Hfail.
    destruct (QueryRow W (now s) c _) as [e | | e | v]; simpl;
      [split; [done | lia].. |].
    by destruct (Hfail v).
  - destruct (Hok 0%nat ltac:(lia)) as [v Hv]. rewrite Nat.add_0_r in Hv.
    rewrite Hv.
    destruct (IH j v (tick s)) as [H1 H2]; try done; try lia.
    + intros k Hk. destruct (Hok (S k) ltac:(lia)) as [v' Hv'].
      exists v'. rewrite <- Hv'. simpl. f_equal. lia.
    + intros v' Hv'. apply (Hfail v'). rewrite <- Hv'. simpl. f_equal. lia.
    + split; [done |]. rewrite H2. simpl. lia.
Qed.

Lemma TestNewTSN_loop_stops_at_first_failure_witness :
  heap s_rainer !! 0
  = Some (WallClock.mk (Some 0) "rainer"
            "host=localhost dbname=rainer sslmode=disable") ∧
  (TestNewTSN_loop W_down 100 (Some 0) 0 s_rainer).1
  = Ret (inr (errors_New "error while reading TSN")) ∧
  now (TestNewTSN_loop W_down 100 (Some 0) 0 s_rainer).2 = (now s_rainer + 1)%nat.
Proof.
  split; [vm_compute; reflexivity |].
  apply (TestNewTSN_loop_stops_at_first_failure W_down 100 0 0
           (WallClock.mk (Some 0) "rainer"
              "host=localhost dbname=rainer sslmode=disable")
           0 0%Z s_rainer).
  - vm_compute. reflexivity.
  - reflexivity.
  - lia.
  - intros k Hk. lia.
  - intros v. discriminate.
Defined.

(** ** The tests *)

Lemma NewTSN_returns (W : World) (wc : option loc) (s : State) :
  ∃ tsn err,
    (NewTSN W wc s).1 = Ret (tsn, err) ∧
    (err = None ∨ err = Some (errors_New "error while reading TSN")).
Proof.
  rewrite NewTSN_unfold.
  destruct (wc ≫= _) as [w|]; [| eauto].
  destruct (WallClock.db w); [| eauto].
  destruct (QueryRow W _ _ _); eauto.
Qed.

Lemma TestNewTSN_loop_returns (W : World) (n : nat) (wc : option loc) (z : Z)
    (s : State) :
  ∃ r, (TestNewTSN_loop W n wc z s).1 = Ret r ∧
       ∀ e, r = inr e → e = errors_New "error while reading TSN".
Proof.
  revert z s. induction n as [|n IH]; intros z s.
  { exists (inl z). by split. }
  simpl TestNewTSN_loop. unfold bind.
  destruct (NewTSN_returns W wc s) as (tsn & err & Hr & Herr).
  destruct (NewTSN W wc s) as [o s1]. simpl in Hr. subst o.
  destruct Herr as [-> | ->].
  - apply IH.
  - eexists. split; [reflexivity |]. by intros e [= <-].
Qed.

Lemma TestNewTSN_loop_core_kept (W : World) (n : nat) (wc : option loc)
    (z : Z) (s : State) :
  core_kept s (TestNewTSN_loop W n wc z s).2.
Proof.
  revert z s. induction n as [|n IH]; intros z s; [done |].
  simpl TestNewTSN_loop. unfold bind.
  pose proof (NewTSN_core_kept W wc s) as Hk.
  destruct (NewTSN_returns W wc s) as (tsn & err & Hr & _).
  destruct (NewTSN W wc s) as [o s1]. simpl in Hr, Hk. subst o.
  destruct err; [done |]. etrans; [exact Hk | apply IH].
Qed.

(** The test without a loop is the test with a loop of one round. *)
Lemma TestNewTSN_one_round (W : World) (s : State) :
  TestNewTSN W s = TestNewTSN_n W 1 "1" s.
Proof.
  unfold TestNewTSN, TestNewTSN_n, bind.
  destruct (GetWallClock W "rainer" s) as [[[wc [e|]] | v | | msg] s1]; try done.
  simpl. unfold bind.
  destruct (NewTSN_returns W wc s1) as (tsn & err & Hr & _).
  destruct (NewTSN W wc s1) as [o s2]. simpl in Hr. subst o.
  by destruct err.
Qed.

Lemma GetWallClock_returns_pair (W : World) (name : string) (s : State) :
  wallclocksRWLock s = Sync.unlocked →
  ∃ wc err s1,
    GetWallClock W name s = (Ret (wc, err), s1) ∧
    (err = None ∨ err = Some (errors_New "cannot create wall clock")).
Proof.
  intros Hfree. destruct (GetWallClock_spec W name s Hfree) as (s' & _ & H).
  destruct (wallclocks s !! name); [destruct H as [-> _]; eauto 10 |].
  destruct (Open W _ _ _); [destruct H as [-> _]; eauto 10 |].
  destruct H as (_ & _ & _ & H). destruct (Ping W _ _); rewrite H; eauto 10.
Qed.

(** X8: a test that starts with the mutex free comes to its verdict (it
    does not panic or hang).  When it fails, the line it prints shows
    one of the two errors of the package boundary,
    [cannot create wall clock] or [error while reading TSN], never the
    cause; when it passes, the line shows its count and a TSN. *)
Theorem test_verdicts (W : World) (n : nat) (count : string) (s : State) :
  wallclocksRWLock s = Sync.unlocked →
  ∃ v, (TestNewTSN_n W n count s).1 = Ret v ∧
    match v with
    | FAIL out =>
        out = PANIC (errors_New "cannot create wall clock") ∨
        out = PANIC (errors_New "error while reading TSN")
    | PASS out => ∃ tsn, out = NEW_TSN count tsn
    end.
Proof.
  intros Hfree.
  destruct (GetWallClock_returns_pair W "rainer" s Hfree)
    as (wc & err & s1 & HG & Herr).
  unfold TestNewTSN_n, bind. rewrite HG.
  destruct Herr as [-> | ->]; [| eexists; split; [reflexivity | by left]].
  destruct (TestNewTSN_loop_returns W n wc 0%Z s1) as (r & Hr & He).
  destruct (TestNewTSN_loop W n wc 0 s1) as [o s2]. simpl in Hr. subst o.
  destruct r as [tsn | e]; eexists; (split; [reflexivity |]); simpl.
  - by exists tsn.
  - right. by rewrite (He e eq_refl).
Qed.

Lemma test_verdicts_witness :
  wallclocksRWLock init = Sync.unlocked ∧
  ∃ v, (TestNewTSN_n W_down 100 "100" init).1 = Ret v ∧
    match v with
    | FAIL out =>
        out = PANIC (errors_New "cannot create wall clock") ∨
        out = PANIC (errors_New "error while reading TSN")
    | PASS out => ∃ tsn, out = NEW_TSN "100" tsn
    end.
Proof.
  split; [reflexivity |].
  apply (test_verdicts W_down 100 "100" init). reflexivity.
Defined.

Lemma TestNewTSN_loop_passes (W : World) (n : nat) (l : loc) (w : WallClock.t)
    (c : conn) (z : Z) (s : State) :
  heap s !! l = Some w →
  WallClock.db w = Some c →
  (∀ t, ∃ v, QueryRow W t c "select clock.new_tsn()" = RowInt64 v) →
  ∃ v, (TestNewTSN_loop W n (Some l) z s).1 = Ret (inl v).
Proof.
  intros Hl Hc Hq. revert z s Hl. induction n as [|n IH]; intros z s Hl.
  { by exists z. }
  simpl TestNewTSN_loop. unfold bind.
  rewrite (NewTSN_round_trip W s l w c Hl Hc).
  destruct (Hq (now s)) as [v ->]. by apply IH.
Qed.

(** X9: in a world where [sql.Open] and [Ping] always succeed and every
    query is answered with an int64, a test passes, whatever its bound
    and whatever calls were made before it since the start of the
    process, in whatever world. *)
Theorem test_passes_when_database_answers (W0 W : World) (cs : list call)
    (n : nat) (count : string) :
  (∀ t driver dsn, Open W t driver dsn = None) →
  (∀ t c, Ping W t c = None) →
  (∀ t c, ∃ v, QueryRow W t c "select clock.new_tsn()" = RowInt64 v) →
  ∃ tsn,
    (TestNewTSN_n W n count (execs W0 cs init)).1 = Ret (PASS (NEW_TSN count tsn)).
Proof.
  intros Hopen Hping Hq. set (s := execs W0 cs init).
  assert (registry_ok s) as Hok by apply execs_registry_ok, registry_ok_init.
  pose proof (ok_mutex s Hok) as Hfree.
  assert (∃ l s1 w c, GetWallClock W "rainer" s = (Ret (Some l, None), s1) ∧
                      heap s1 !! l = Some w ∧ WallClock.db w = Some c)
    as (l & s1 & w & c & HG & Hl & Hc).
  { destruct (GetWallClock_spec W "rainer" s Hfree) as (s1 & _ & H).
    destruct (wallclocks s !! "rainer") as [l|] eqn:Hname.
    - destruct H as [HG ->].
      destruct (ok_handle s Hok _ l Hname) as (c & dn & Hl).
      eexists l, _, _, c. split; [exact HG |]. split; [exact Hl | done].
    - rewrite Hopen, Hping in H. destruct H as (_ & Hh & _ & HG).
      eexists (length (heap s)), s1, _, (dbs s). split; [done |].
      split; [rewrite Hh; by apply list_lookup_middle | done]. }
  unfold TestNewTSN_n, bind. rewrite HG.
  destruct (TestNewTSN_loop_passes W n l w c 0%Z s1 Hl Hc (λ t, Hq t c))
    as [v Hv].
  destruct (TestNewTSN_loop W n (Some l) 0 s1) as [o s2]. simpl in Hv. subst o.
  by exists v.
Qed.

Lemma test_passes_when_database_answers_witness :
  (∀ t driver dsn, Open W_up t driver dsn = None) ∧
  (∀ t c, Ping W_up t c = None) ∧
  (∀ t c, ∃ v, QueryRow W_up t c "select clock.new_tsn()" = RowInt64 v) ∧
  ∃ tsn,
    (TestNewTSN_n W_up 100 "100"
       (execs W_down [CallGetWallClock "a"; CallNewTSN None] init)).1
    = Ret (PASS (NEW_TSN "100" tsn)).
Proof.
  assert (∀ t c, ∃ v, QueryRow W_up t c "select clock.new_tsn()" = RowInt64 v)
    as Hq by (intros t c; by exists (Z.of_nat t)).
  split; [done |]. split; [done |]. split; [exact Hq |].
  apply (test_passes_when_database_answers W_down W_up
           [CallGetWallClock "a"; CallNewTSN None] 100 "100");
    [done | done | exact Hq].
Defined.

(** X10: once [rainer] is in the map, a test opens no connection and
    leaves the map and the heap as they are, whether it passes or
    fails: the tests of the suite share the connection of the first. *)
Theorem test_reuses_the_connection (W : World) (n : nat) (count : string)
    (s : State) (l : loc) :
  Sync.writer (wallclocksRWLock s) = false →
  wallclocks s !! "rainer" = Some l →
  let s' := (TestNewTSN_n W n count s).2 in
  dbs s' = dbs s ∧ wallclocks s' = wallclocks s ∧ heap s' = heap s.
Proof.
  intros Hw Hname s'. subst s'. unfold TestNewTSN_n, bind.
  rewrite GetWallClock_unfold, (get_no_writer W "rainer" s Hw), Hname.
  pose proof (TestNewTSN_loop_core_kept W n (Some l) 0%Z
                (print (CHECK "get wallclock ok" "rainer") s))
    as (Hm & _ & _ & Hh & Hd).
  destruct (TestNewTSN_loop_returns W n (Some l) 0%Z
              (print (CHECK "get wallclock ok" "rainer") s)) as (r & Hr & _).
  destruct (TestNewTSN_loop W n (Some l) 0 _) as [o s2].
  simpl in Hr, Hm, Hh, Hd. subst o. by destruct r.
Qed.

Lemma test_reuses_the_connection_witness :
  Sync.writer (wallclocksRWLock s_rainer) = false ∧
  wallclocks s_rainer !! "rainer" = Some 0 ∧
  dbs (TestNewTSN_n W_up 1000 "1000" s_rainer).2 = dbs s_rainer ∧
  wallclocks (TestNewTSN_n W_up 1000 "1000" s_rainer).2 = wallclocks s_rainer ∧
  heap (TestNewTSN_n W_up 1000 "1000" s_rainer).2 = heap s_rainer.
Proof.
  split; [reflexivity |]. split; [vm_compute; reflexivity |].
  apply (test_reuses_the_connection W_up 1000 "1000" s_rainer 0).
  - reflexivity.
  - vm_compute. reflexivity.
Defined.

(** ** The template and the target *)

Lemma Replace1_empty (old new : string) :
  old ≠ "" → Strings.Replace1 "" old new = "".
Proof.
  intros Hold. unfold Strings.Replace1.
  destruct (decide (old = new)); [done |].
  by destruct old.
Qed.

(** X11: while [WALLCLOCK_DB] is unset (or empty), nothing is cached:
    [dbname] reads the variable, returns the empty target for every
    clock name, and leaves [dbTemplate] empty, so that the next call
    reads the variable again. *)
Theorem unset_template_is_read_again (W : World) (name : string) (s : State) :
  dbTemplate s = "" →
  Getenv W (now s) "WALLCLOCK_DB" = "" →
  (dbname W name s).1 = Ret "" ∧
  dbTemplate (dbname W name s).2 = "" ∧
  now (dbname W name s).2 = S (now s).
Proof.
  intros He Henv.
  rewrite (dbname_unfold W name s _ _ (getDbTemplate_empty W s He)).
  rewrite Henv, Replace1_empty by done. done.
Qed.

Lemma unset_template_is_read_again_witness :
  dbTemplate init = "" ∧
  (dbname (Build_World (λ _ _, "") (Open W_up) (Ping W_up) (QueryRow W_up))
     "rainer" init).1 = Ret "" ∧
  dbTemplate (dbname (Build_World (λ _ _, "") (Open W_up) (Ping W_up) (QueryRow W_up))
                "rainer" init).2 = "" ∧
  now (dbname (Build_World (λ _ _, "") (Open W_up) (Ping W_up) (QueryRow W_up))
         "rainer" init).2 = S (now init).
Proof.
  split; [reflexivity |].
  apply (unset_template_is_read_again
           (Build_World (λ _ _, "") (Open W_up) (Ping W_up) (QueryRow W_up))
           "rainer" init); reflexivity.
Defined.






(** Without the placeholder all names share one target. *)
Example dbname_without_placeholder :
  Strings.Replace1 "host=localhost dbname=tsn" "$database$" "a"
  = Strings.Replace1 "host=localhost dbname=tsn" "$database$" "b".
Proof. reflexivity. Qed.

(** ** [add] on its own, and a second attempt *)

(** X13: [add] does not look at the map.  Called with the mutex free for
    a name that is already bound, where [sql.Open] succeeds, it opens
    one more connection and binds the name to a new handle, different
    from the one that was there; the old struct stays in the heap. *)
Theorem add_rebinds_a_bound_name (W : World) (name : string) (s : State)
    (l : loc) (w : WallClock.t) :
  wallclocksRWLock s = Sync.unlocked →
  wallclocks s !! name = Some l →
  heap s !! l = Some w →
  Open W (open_time s) "postgres" (target W name s) = None →
  let s' := (add W name s).2 in
  wallclocks s' !! name = Some (length (heap s)) ∧
  length (heap s) ≠ l ∧
  heap s' !! l = Some w ∧
  dbs s' = S (dbs s).
Proof.
  intros Hfree Hname Hl Hopen s'.
  destruct (add_spec W name s Hfree) as (s1 & _ & _ & H).
  rewrite Hopen in H. destruct H as (Hm & Hh & Hd & _ & H).
  assert (s' = s1) as -> by (subst s'; by destruct (Ping W _ _); rewrite H).
  split_and!.
  - rewrite Hm. apply lookup_insert_eq.
  - apply lookup_lt_Some in Hl. lia.
  - rewrite Hh. by apply lookup_app_l_Some.
  - done.
Qed.

Lemma add_rebinds_a_bound_name_witness :
  wallclocksRWLock s_rainer = Sync.unlocked ∧
  wallclocks s_rainer !! "rainer" = Some 0 ∧
  wallclocks (add W_up "rainer" s_rainer).2 !! "rainer"
  = Some (length (heap s_rainer)) ∧
  length (heap s_rainer) ≠ 0 ∧
  heap (add W_up "rainer" s_rainer).2 !! 0
  = Some (WallClock.mk (Some 0) "rainer"
            "host=localhost dbname=rainer sslmode=disable") ∧
  dbs (add W_up "rainer" s_rainer).2 = S (dbs s_rainer).
Proof.
  split; [reflexivity |]. split; [vm_compute; reflexivity |].
  apply (add_rebinds_a_bound_name W_up "rainer" s_rainer 0
           (WallClock.mk (Some 0) "rainer"
              "host=localhost dbname=rainer sslmode=disable")).
  - reflexivity.
  - vm_compute. reflexivity.
  - vm_compute. reflexivity.
  - reflexivity.
Defined.

(** X14: after [sql.Open] has failed for a name, the name is still
    absent and a later call constructs again from scratch: when
    [sql.Open] and [Ping] then succeed, it returns a handle with a nil
    error.  The struct of the failed attempt stays in the heap, so the
    new handle is the next address; the failed attempt counted no
    connection. *)
Theorem GetWallClock_retries_after_open_failure (W W' : World) (name : string)
    (s : State) (e : error) :
  wallclocksRWLock s = Sync.unlocked →
  wallclocks s !! name = None →
  Open W (open_time s) "postgres" (target W name s) = Some e →
  let s1 := (GetWallClock W name s).2 in
  Open W' (open_time s1) "postgres" (target W' name s1) = None →
  Ping W' (S (open_time s1)) (dbs s1) = None →
  (GetWallClock W' name s1).1 = Ret (Some (S (length (heap s))), None) ∧
  dbs (GetWallClock W' name s1).2 = S (dbs s).
Proof.
  intros Hfree Hname Hopen s1.
  assert (wallclocksRWLock s1 = Sync.unlocked ∧ wallclocks s1 = wallclocks s ∧
          dbs s1 = dbs s ∧ length (heap s1) = S (length (heap s)))
    as (Hfree1 & Hm1 & Hd1 & Hh1).
  { subst s1. rewrite GetWallClock_state, (get_spec W name s Hfree), Hname.
    destruct (add_spec W name s Hfree) as (s' & Hfree' & _ & H).
    rewrite Hopen in H. destruct H as (-> & Hm & Hh & Hd & _). simpl.
    split_and!; try done. rewrite Hh, length_app. simpl. lia. }
  intros Hopen' Hping'.
  destruct (GetWallClock_spec W' name s1 Hfree1) as (s2 & _ & H).
  rewrite Hm1, Hname, Hopen', Hping' in H.
  destruct H as (_ & _ & Hd2 & ->). simpl. by rewrite Hh1, Hd2, Hd1.
Qed.

Lemma GetWallClock_retries_after_open_failure_witness :
  wallclocksRWLock init = Sync.unlocked ∧
  wallclocks init !! "rainer" = None ∧
  (GetWallClock W_up "rainer"
     (GetWallClock (Build_World (Getenv W_up) (λ _ _ _, Some "pq: bad dsn")
                      (Ping W_up) (QueryRow W_up)) "rainer" init).2).1
  = Ret (Some (S (length (heap init))), None) ∧
  dbs (GetWallClock W_up "rainer"
         (GetWallClock (Build_World (Getenv W_up) (λ _ _ _, Some "pq: bad dsn")
                          (Ping W_up) (QueryRow W_up)) "rainer" init).2).2
  = S (dbs init).
Proof.
  split; [reflexivity |]. split; [reflexivity |].
  apply (GetWallClock_retries_after_open_failure
           (Build_World (Getenv W_up) (λ _ _ _, Some "pq: bad dsn")
              (Ping W_up) (QueryRow W_up))
           W_up "rainer" init "pq: bad dsn"); reflexivity.
Defined.

(** ** The mutex under every schedule *)

Lemma count_insert (f : Sched.pc → nat) (ps : list Sched.pc) (i : nat)
    (p p' : Sched.pc) :
  ps !! i = Some p →
  (count f (<[i := p']> ps) + f p = count f ps + f p')%nat.
Proof.
  revert i. induction ps as [|q ps IH]; intros [|i] Hi; simpl in *; try done.
  - injection Hi as ->. lia.
  - specialize (IH i Hi). fold (count f ps). fold (count f (<[i := p']> ps)). lia.
Qed.

Lemma count_ge (f : Sched.pc → nat) (ps : list Sched.pc) (i : nat)
    (p : Sched.pc) :
  ps !! i = Some p → (f p ≤ count f ps)%nat.
Proof.
  revert i. induction ps as [|q ps IH]; intros [|i] Hi; simpl in *; try done.
  - injection Hi as ->. lia.
  - specialize (IH i Hi). fold (count f ps). lia.
Qed.

Lemma step_ping (W : World) (wc : loc) (db : option conn) (s : State) :
  ∃ wc' err s',
    Sched.step W (Sched.AtPing wc db) s = (Sched.Done wc' err, s') ∧
    wallclocksRWLock s' = wallclocksRWLock s.
Proof.
  unfold Sched.step, Sched.action, ping, bind, DB_Ping.
  destruct db as [c|]; simpl; [| eauto 10].
  destruct (Ping W (now s) c); simpl; eauto 10.
Qed.

Lemma step_add (W : World) (name : string) (s : State) :
  ∃ p' s',
    Sched.step W (Sched.AtAdd name) s = (p', s') ∧
    wallclocksRWLock s' = wallclocksRWLock s ∧
    reading p' = 0%nat ∧ writing p' = 0%nat ∧ dead p' = 0%nat.
Proof.
  destruct (add_open_spec W name s) as (s1 & _ & Hlk & _ & _ & H).
  unfold Sched.step, Sched.action, bind.
  destruct (Open W _ _ _); destruct H as (-> & _); simpl; eauto 10.
Qed.

Local Ltac accounts_done HWR :=
  simpl in *; split_and!;
  first [ lia | done | intros ->; specialize (HWR eq_refl); lia ].

Lemma mutex_accounts_move (W : World) (c : Sched.config) (i : nat) :
  mutex_accounts c → mutex_accounts (Sched.move W c i).
Proof.
  destruct c as [ps s]. unfold Sched.move. simpl.
  destruct (ps !! i) as [p|] eqn:Hi; [| done].
  intros (HR & HW & HWR & HD). simpl in *.
  destruct (Sched.step W p s) as [p' s'] eqn:Hstep.
  pose proof (count_insert reading ps i p p' Hi) as Cr.
  pose proof (count_insert writing ps i p p' Hi) as Cw.
  pose proof (count_insert dead ps i p p' Hi) as Cd.
  pose proof (count_ge reading ps i p Hi) as Gr.
  pose proof (count_ge writing ps i p Hi) as Gw.
  pose proof (count_ge dead ps i p Hi) as Gd.
  unfold mutex_accounts. simpl.
  destruct s as [m [r w] t h d n o]. simpl in *.
  destruct p; simpl in *.
  - (* AtRLock *)
    unfold Sched.step in Hstep. simpl in Hstep.
    destruct w; simpl in Hstep; injection Hstep as <- <-; accounts_done HWR.
  - (* AtLookup *)
    unfold Sched.step in Hstep. simpl in Hstep.
    injection Hstep as <- <-. accounts_done HWR.
  - (* AtRUnlock *)
    unfold Sched.step in Hstep. simpl in Hstep.
    destruct r as [|r]; [lia |].
    assert (w = false) as -> by (destruct w; [specialize (HWR eq_refl); lia | done]).
    simpl in Hstep. injection Hstep as <- <-.
    destruct r0; accounts_done HWR.
  - (* AtFound *)
    unfold Sched.step in Hstep. simpl in Hstep.
    injection Hstep as <- <-. accounts_done HWR.
  - (* AtAdd *)
    destruct (step_add W name (mkState m (Sync.mk r w) t h d n o))
      as (p1 & s1 & Hs & Hlk & Hr1 & Hw1 & Hd1).
    rewrite Hs in Hstep. injection Hstep as <- <-. rewrite Hlk.
    accounts_done HWR.
  - (* AtLock *)
    unfold Sched.step in Hstep. simpl in Hstep.
    destruct w; simpl in Hstep.
    { injection Hstep as <- <-. accounts_done HWR. }
    destruct r as [|r]; simpl in Hstep; injection Hstep as <- <-;
      accounts_done HWR.
  - (* AtStore *)
    unfold Sched.step in Hstep. simpl in Hstep.
    injection Hstep as <- <-. accounts_done HWR.
  - (* AtUnlock *)
    unfold Sched.step in Hstep. simpl in Hstep.
    destruct w; [| lia]. simpl in Hstep.
    injection Hstep as <- <-. accounts_done HWR.
  - (* AtPing *)
    destruct (step_ping W wc db (mkState m (Sync.mk r w) t h d n o))
      as (wc' & err & s1 & Hs & Hlk).
    rewrite Hs in Hstep. injection Hstep as <- <-. rewrite Hlk.
    accounts_done HWR.
  - (* Done *)
    unfold Sched.step in Hstep. simpl in Hstep.
    injection Hstep as <- <-. accounts_done HWR.
  - (* Dead *)
    lia.
Qed.

Lemma mutex_accounts_run (W : World) (schedule : list nat) (c : Sched.config) :
  mutex_accounts c → mutex_accounts (Sched.run W schedule c).
Proof.
  revert c. induction schedule as [|i sch IH]; intros c Hc; simpl; [done |].
  by apply IH, mutex_accounts_move.
Qed.

Lemma count_entering (f : Sched.pc → nat) (names : list string) :
  f = reading ∨ f = writing ∨ f = dead →
  count f (Sched.AtRLock <$> names) = 0%nat.
Proof.
  intros [-> | [-> | ->]];
    (induction names as [|name names IH]; [done | exact IH]).
Qed.

(** X15: any number of goroutines enter [GetWallClock], with any names,
    while the mutex is free, and run under any schedule.  Then at every
    moment at most one goroutine is between [Lock] and [Unlock] (where
    the map is written); while one is, no goroutine is between [RLock]
    and [RUnlock] (where the map is read); the reader count of the
    mutex is the number of goroutines that read; and no goroutine has
    died of unlocking a mutex that was not locked. *)
Theorem map_access_is_exclusive (W : World) (names : list string)
    (schedule : list nat) (s : State) :
  wallclocksRWLock s = Sync.unlocked →
  let c := Sched.run W schedule (Sched.AtRLock <$> names, s) in
  (count writing c.1 ≤ 1)%nat ∧
  (count writing c.1 = 1%nat → count reading c.1 = 0%nat) ∧
  Sync.readers (wallclocksRWLock c.2) = count reading c.1 ∧
  count dead c.1 = 0%nat.
Proof.
  intros Hfree c.
  assert (mutex_accounts c) as (HR & HW & HWR & HD).
  { apply mutex_accounts_run. unfold mutex_accounts. simpl.
    rewrite !count_entering by auto. by rewrite Hfree. }
  destruct (Sync.writer (wallclocksRWLock c.2)); split_and!; try lia; auto.
Qed.

Lemma map_access_is_exclusive_witness :
  wallclocksRWLock init = Sync.unlocked ∧
  let c := Sched.run W_up [0; 0; 0; 0; 0; 1; 2; 1]
             (Sched.AtRLock <$> ["x"; "x"; "y"], init) in
  (count writing c.1 ≤ 1)%nat ∧
  (count writing c.1 = 1%nat → count reading c.1 = 0%nat) ∧
  Sync.readers (wallclocksRWLock c.2) = count reading c.1 ∧
  count dead c.1 = 0%nat.
Proof.
  split; [reflexivity |].
  apply (map_access_is_exclusive W_up ["x"; "x"; "y"]
           [0; 0; 0; 0; 0; 1; 2; 1] init).
  reflexivity.
Defined.

(** In that run the first goroutine holds the write lock and the other
    two wait at [RLock]. *)
Example map_access_is_exclusive_run :
  (Sched.run W_up [0; 0; 0; 0; 0; 1; 2; 1]
     (Sched.AtRLock <$> ["x"; "x"; "y"], init)).1
  = [Sched.AtStore "x" 0 (Some 0); Sched.AtRLock "x"; Sched.AtRLock "y"].
Proof. vm_compute. reflexivity. Qed.

(** ** What is printed *)

Lemma snoc_snoc {A} (l : list A) (a b : A) :
  ((l ++ [a]) ++ [b] = l ++ [a; b])%list.
Proof. induction l as [|x l IH]; simpl; [done | by rewrite IH]. Qed.

Lemma add_open_stdout (W : World) (name : string) (s : State) :
  stdout (add_open W name s).2
  = (stdout s ++
     CHECK "generated database name" (target W name s) ::
     match Open W (open_time s) "postgres" (target W name s) with
     | Some e => [ERROR e]
     | None => []
     end)%list.
Proof.
  destruct s as [m lk t h d n o].
  unfold add_open, target, template, open_time, bind, new_WallClock, store,
    modify, dbname, getDbTemplate, bind, gets, os_Getenv, modify, checkString,
    sql_Open, checkErr, bind, modify, panic, ret.
  simpl.
  destruct (decide (t = "")) as [->|Hne]; simpl.
  - destruct (Open W (S n) _ _) as [e|]; simpl; [apply snoc_snoc | reflexivity].
  - destruct (Open W n _ _) as [e|]; simpl; [apply snoc_snoc | reflexivity].
Qed.

Lemma add_stdout (W : World) (name : string) (s : State) :
  wallclocksRWLock s = Sync.unlocked →
  stdout (add W name s).2
  = (stdout s ++
     CHECK "generated database name" (target W name s) ::
     match Open W (open_time s) "postgres" (target W name s) with
     | Some e => [ERROR e]
     | None =>
         match Ping W (S (open_time s)) (dbs s) with
         | Some e => [ERROR e]
         | None => []
         end
     end)%list.
Proof.
  intros Hfree. pose proof (add_open_stdout W name s) as Hout.
  destruct (add_open_spec W name s) as (s1 & _ & Hlk & _ & Hn & H).
  rewrite Hfree in Hlk. unfold add, bind.
  destruct (Open W (open_time s) "postgres" (target W name s)) as [e|];
    destruct H as (Hopen & _); rewrite Hopen in Hout |- *; simpl in Hout;
    [done |].
  unfold RWMutex.Lock. rewrite Hlk. simpl.
  unfold ping, bind, DB_Ping. simpl. rewrite Hn.
  destruct (Ping W (S (open_time s)) (dbs s)) as [e|]; simpl; rewrite Hout.
  - apply snoc_snoc.
  - reflexivity.
Qed.

(** X16: what [GetWallClock], called with the mutex free, writes to
    standard output.  For a name in the map: the line
    [CHECK: get wallclock ok name].  For a name not in the map: the
    line [CHECK: generated database name] with the whole connection
    target, and then, when [sql.Open] or [Ping] failed, the line
    [ERROR:] with the very error that the returned error leaves out. *)
Theorem GetWallClock_prints (W : World) (name : string) (s : State) :
  wallclocksRWLock s = Sync.unlocked →
  stdout (GetWallClock W name s).2
  = (stdout s ++
     match wallclocks s !! name with
     | Some _ => [CHECK "get wallclock ok" name]
     | None =>
         CHECK "generated database name" (target W name s) ::
         match Open W (open_time s) "postgres" (target W name s) with
         | Some e => [ERROR e]
         | None =>
             match Ping W (S (open_time s)) (dbs s) with
             | Some e => [ERROR e]
             | None => []
             end
         end
     end)%list.
Proof.
  intros Hfree. rewrite GetWallClock_state, (get_spec W name s Hfree).
  destruct (wallclocks s !! name); [done |]. by apply add_stdout.
Qed.

Lemma GetWallClock_prints_witness :
  wallclocksRWLock init = Sync.unlocked ∧
  stdout (GetWallClock W_down "rainer" init).2
  = (stdout init ++
     match wallclocks init !! "rainer" with
     | Some _ => [CHECK "get wallclock ok" "rainer"]
     | None =>
         CHECK "generated database name" (target W_down "rainer" init) ::
         match Open W_down (open_time init) "postgres"
                 (target W_down "rainer" init) with
         | Some e => [ERROR e]
         | None =>
             match Ping W_down (S (open_time init)) (dbs init) with
             | Some e => [ERROR e]
             | None => []
             end
         end
     end)%list.
Proof.
  split; [reflexivity |].
  apply (GetWallClock_prints W_down "rainer" init). reflexivity.
Defined.

(** The refused probe, on standard output. *)
Example GetWallClock_prints_W_down :
  stdout (GetWallClock W_down "rainer" init).2
  = [CHECK "generated database name"
       "host=localhost dbname=rainer sslmode=disable";
     ERROR "dial tcp 127.0.0.1:5432: connect: connection refused"].
Proof. vm_compute. reflexivity. Qed.

(** X17: what [NewTSN] writes to standard output: the line [ERROR:]
    with the cause when its round trip failed (with [sql.ErrNoRows] when
    there was no row), and nothing when the round trip was answered or
    when the handle or its connection is nil (that panic does not pass
    through [checkErr]). *)
Theorem NewTSN_prints (W : World) (wc : option loc) (s : State) :
  stdout (NewTSN W wc s).2
  = (stdout s ++
     match (wc ≫= (λ l : loc, heap s !! l)) ≫= WallClock.db with
     | None => []
     | Some c =>
         match QueryRow W (now s) c "select clock.new_tsn()" with
         | RowInt64 _ => []
         | RowQueryError e | RowUndecodable e => [ERROR e]
         | RowNone => [ERROR sql_ErrNoRows]
         end
     end)%list.
Proof.
  rewrite NewTSN_unfold.
  destruct (wc ≫= _) as [w|]; simpl; [| by rewrite app_nil_r].
  destruct (WallClock.db w) as [c|]; simpl; [| by rewrite app_nil_r].
  destruct (QueryRow W (now s) c _); simpl; by rewrite ?app_nil_r.
Qed.
